(** * Shift_JIS converter: a shallow embedding of [sjis_converter.py]

    The Python program is embedded as state-passing functions over an explicit
    model of the world it runs in: a file system, a current directory, the
    lines waiting on standard input, the names [tempfile] draws, and a fault
    oracle through which every system call may raise.  Exceptions are values
    of [exn]; [try]/[except]/[finally] are combinators of the monad [M].

    Path arithmetic follows [posixpath]; the external collaborators (chardet,
    the codecs, float formatting) are an interface, [Collaborators]. *)

From Stdlib Require Import ZArith NArith String Ascii List Floats Lia.
From Stdlib Require Import Strings.Byte.
From stdpp Require Import base option list strings gmap pretty.

Set Default Proof Using "Type".
Open Scope string_scope.
Open Scope nat_scope.
Open Scope list_scope.

(** ** Python values *)

(** [bytes] objects. *)
Abbreviation bytes := (list byte).

(** A Python [str] of text read from a file: a sequence of code points. *)
Abbreviation char := N (only parsing).
Abbreviation text := (list N) (only parsing).

#[global] Instance byte_eq_dec' : EqDecision byte := Byte.byte_eq_dec.

(** [b.startswith(prefix)] on bytes. *)
Fixpoint startswith (pre b : bytes) : bool :=
  match pre, b with
  | [], _ => true
  | x :: pre', y :: b' => bool_decide (x = y) && startswith pre' b'
  | _ :: _, [] => false
  end.

(** [x in b] for a single byte. *)
Definition contains (x : byte) (b : bytes) : bool := bool_decide (x ∈ b).

(** ** Exceptions *)

Definition EPERM : Z := 1.
Definition ENOENT : Z := 2.
Definition EACCES : Z := 13.
Definition EEXIST : Z := 17.
Definition ENOTDIR : Z := 20.
Definition EISDIR : Z := 21.
Definition ENOSPC : Z := 28.

(** The exceptions the program can meet.  [OSError] carries [errno],
    [winerror] (absent off Windows) and [str(e)]; its subclasses are decided
    by [errno], as Python's constructor does.  [KeyboardInterrupt] is the one
    exception here that is not an [Exception]. *)
Inductive exn :=
| OSError (errno : option Z) (winerror : option Z) (msg : string)
| LookupError (msg : string)
| PyException (msg : string)
| KeyboardInterrupt.

#[global] Instance exn_eq_dec : EqDecision exn.
Proof. solve_decision. Defined.

Definition is_Exception (e : exn) : bool :=
  match e with KeyboardInterrupt => false | _ => true end.

Definition is_OSError (e : exn) : bool :=
  match e with OSError _ _ _ => true | _ => false end.

Definition has_errno (n : Z) (e : exn) : bool :=
  match e with OSError (Some k) _ _ => bool_decide (k = n) | _ => false end.

Definition is_PermissionError (e : exn) : bool :=
  has_errno EACCES e || has_errno EPERM e.

Definition is_FileNotFoundError (e : exn) : bool := has_errno ENOENT e.

Definition is_FileExistsError (e : exn) : bool := has_errno EEXIST e.

(** [str(e)] *)
Definition str_exn (e : exn) : string :=
  match e with
  | OSError _ _ m | LookupError m | PyException m => m
  | KeyboardInterrupt => ""
  end.

(** ** The world *)

Inductive node :=
| File (content : bytes)
| Dir.

#[global] Instance node_eq_dec : EqDecision node.
Proof. solve_decision. Defined.

(** System calls, as the fault oracle sees them (paths are resolved). *)
Inductive syscall :=
| SysGetcwd
| SysStat (p : string)
| SysOpen (p : string)
| SysRead (p : string)
| SysCreate (p : string)
| SysWrite (p : string)
| SysClose (p : string)
| SysRemove (p : string)
| SysRename (src dst : string)
| SysMkdir (p : string)
| SysDetect.

(** What [input()] meets on standard input. *)
Inductive stdin_event :=
| Line (s : string)
| EndOfFile
| Interrupt.

Record World := mkWorld {
  fs : gmap string node;          (* resolved path -> node *)
  cwd : string;
  clock : nat;                    (* system calls made so far *)
  fault : nat → syscall → option exn;
  tmp_names : list string;        (* the random parts tempfile will draw *)
  stdin : list stdin_event;
  hist : list (gmap string node)  (* file-system states written, newest first *)
}.

Definition set_fs (m : gmap string node) (w : World) : World :=
  mkWorld m (cwd w) (clock w) (fault w) (tmp_names w) (stdin w) (m :: hist w).

Definition set_clock (n : nat) (w : World) : World :=
  mkWorld (fs w) (cwd w) n (fault w) (tmp_names w) (stdin w) (hist w).

Definition set_tmp_names (l : list string) (w : World) : World :=
  mkWorld (fs w) (cwd w) (clock w) (fault w) l (stdin w) (hist w).

Definition set_stdin (l : list stdin_event) (w : World) : World :=
  mkWorld (fs w) (cwd w) (clock w) (fault w) (tmp_names w) l (hist w).

(** ** The monad: state and exceptions *)

Inductive res (A : Type) :=
| Ok (a : A)
| Raise (e : exn).
Arguments Ok {A} a.
Arguments Raise {A} e.

Definition M (A : Type) : Type := World → res A * World.

Definition ret {A} (a : A) : M A := λ w, (Ok a, w).

Definition raise {A} (e : exn) : M A := λ w, (Raise e, w).

Definition bind {A B} (m : M A) (k : A → M B) : M B :=
  λ w, match m w with
       | (Ok a, w') => k a w'
       | (Raise e, w') => (Raise e, w')
       end.

Notation "'let!' x ':=' m 'in' k" := (bind m (λ x, k))
  (at level 10, x pattern, m at level 100, k at level 200,
   format "'[v' 'let!'  x  ':='  m  'in' '/' k ']'").
Notation "m ';;' k" := (bind m (λ _, k))
  (at level 100, k at level 200, right associativity).

(** [try: m except <h matches>: ...]; a handler that gives [None] does not
    match, and the exception propagates. *)
Definition try_except {A} (m : M A) (h : exn → option (M A)) : M A :=
  λ w, match m w with
       | (Ok a, w') => (Ok a, w')
       | (Raise e, w') =>
           match h e with
           | Some k => k w'
           | None => (Raise e, w')
           end
       end.

(** [try: m finally: f]: [f] runs on every exit; if [f] raises, that
    exception replaces the outcome of [m]. *)
Definition try_finally {A} (m : M A) (f : M unit) : M A :=
  λ w, match m w with
       | (r, w') =>
           match f w' with
           | (Ok _, w'') => (r, w'')
           | (Raise e, w'') => (Raise e, w'')
           end
       end.

(** [except Exception] *)
Definition except_Exception {A} (k : exn → M A) : exn → option (M A) :=
  λ e, if is_Exception e then Some (k e) else None.

(** [except OSError] *)
Definition except_OSError {A} (k : exn → M A) : exn → option (M A) :=
  λ e, if is_OSError e then Some (k e) else None.

(** ** posixpath *)

Definition sep : ascii := "/"%char.

(** [p.startswith('/')] *)
Definition isabs (p : string) : bool :=
  match p with
  | String c _ => bool_decide (c = sep)
  | EmptyString => false
  end.

(** [p.endswith('/')] *)
Fixpoint ends_with_sep (p : string) : bool :=
  match p with
  | EmptyString => false
  | String c EmptyString => bool_decide (c = sep)
  | String _ r => ends_with_sep r
  end.

(** [os.path.join(a, b)] *)
Definition join (a b : string) : string :=
  if isabs b then b
  else if bool_decide (a = "") || ends_with_sep a then a +:+ b
  else a +:+ "/" +:+ b.

(** [p.split('/')]: never empty. *)
Fixpoint split_sep (p : string) : list string :=
  match p with
  | EmptyString => [""]
  | String c r =>
      if bool_decide (c = sep) then "" :: split_sep r
      else match split_sep r with
           | x :: xs => String c x :: xs
           | [] => [String c ""]
           end
  end.

(** ['/'.join(comps)] *)
Fixpoint join_sep (comps : list string) : string :=
  match comps with
  | [] => ""
  | [x] => x
  | x :: xs => x +:+ "/" +:+ join_sep xs
  end.

(** One turn of the loop of [normpath]; [abs] says that the path has initial
    slashes, [acc] is [new_comps], last component first. *)
Definition norm_step (abs : bool) (acc : list string) (comp : string)
  : list string :=
  if bool_decide (comp = "") || bool_decide (comp = ".") then acc
  else if negb (bool_decide (comp = ".."))
          || (negb abs && bool_decide (acc = []))
          || match acc with x :: _ => bool_decide (x = "..") | [] => false end
       then comp :: acc
       else match acc with _ :: acc' => acc' | [] => [] end.

(** The number of initial slashes [normpath] keeps: two stay two, three or
    more become one. *)
Definition initial_slashes (p : string) : nat :=
  match p with
  | String a (String b (String c _)) =>
      if bool_decide (a = sep) then
        if bool_decide (b = sep) then
          if bool_decide (c = sep) then 1 else 2
        else 1
      else 0
  | String a (String b EmptyString) =>
      if bool_decide (a = sep) then if bool_decide (b = sep) then 2 else 1
      else 0
  | String a EmptyString => if bool_decide (a = sep) then 1 else 0
  | EmptyString => 0
  end.

Fixpoint slashes (n : nat) : string :=
  match n with
  | 0 => ""
  | S k => String sep (slashes k)
  end.

(** [os.path.normpath(p)] *)
Definition normpath (p : string) : string :=
  if bool_decide (p = "") then "."
  else
    let n := initial_slashes p in
    let comps :=
      rev (fold_left (norm_step (negb (bool_decide (n = 0)))) (split_sep p) [])
    in
    let q := slashes n +:+ join_sep comps in
    if bool_decide (q = "") then "." else q.

(** [os.path.basename(p)]: what follows the last slash. *)
Definition basename (p : string) : string := List.last (split_sep p) "".

(** [p[:i]] for [i = p.rfind('/') + 1]. *)
Definition head_of (p : string) : string :=
  match removelast (split_sep p) with
  | [] => ""
  | cs => join_sep cs +:+ "/"
  end.

(** [head.rstrip('/')] *)
Fixpoint rstrip_sep (p : string) : string :=
  match p with
  | EmptyString => ""
  | String c r =>
      match rstrip_sep r with
      | EmptyString => if bool_decide (c = sep) then "" else String c ""
      | r' => String c r'
      end
  end.

(** [os.path.dirname(p)] *)
Definition dirname (p : string) : string :=
  let head := head_of p in
  if bool_decide (head = "") then head
  else if bool_decide (rstrip_sep head = "") then head
  else rstrip_sep head.

(** The absolute, normalised path the kernel resolves [p] to from [d]. *)
Definition resolve_from (d p : string) : string := normpath (join d p).

Definition resolve (w : World) (p : string) : string :=
  resolve_from (cwd w) p.

(** ** System calls *)

Definition get {A} (f : World → A) : M A := λ w, (Ok (f w), w).

(** Every system call first asks the oracle whether it fails. *)
Definition tick (s : syscall) : M unit :=
  λ w, let w' := set_clock (S (clock w)) w in
       match fault w (clock w) s with
       | Some e => (Raise e, w')
       | None => (Ok tt, w')
       end.

Definition oserror (n : Z) (what p : string) : exn :=
  OSError (Some n) None
    ("[Errno " +:+ pretty n +:+ "] " +:+ what +:+ ": '" +:+ p +:+ "'").

Definition enoent (p : string) : exn :=
  oserror ENOENT "No such file or directory" p.
Definition eisdir (p : string) : exn := oserror EISDIR "Is a directory" p.
Definition enotdir (p : string) : exn := oserror ENOTDIR "Not a directory" p.
Definition eexist (p : string) : exn := oserror EEXIST "File exists" p.

(** [os.path.exists], [isfile], [isdir]: they never raise. *)
Definition os_path_exists (p : string) : M bool :=
  get (λ w, bool_decide (is_Some (fs w !! resolve w p))).

Definition os_path_isfile (p : string) : M bool :=
  get (λ w, match fs w !! resolve w p with Some (File _) => true | _ => false end).

Definition os_path_isdir (p : string) : M bool :=
  get (λ w, bool_decide (fs w !! resolve w p = Some Dir)).

(** [os.getcwd()] *)
Definition os_getcwd : M string := tick SysGetcwd;; get cwd.

(** [os.path.abspath(p)] *)
Definition os_path_abspath (p : string) : M string :=
  if isabs p then ret (normpath p)
  else let! d := os_getcwd in ret (normpath (join d p)).

(** [os.path.getsize(p)]; a directory reports the size of its own entry. *)
Definition os_path_getsize (p : string) : M N :=
  let! k := get (λ w, resolve w p) in
  tick (SysStat k);;
  let! n := get (λ w, fs w !! k) in
  match n with
  | Some (File b) => ret (N.of_nat (length b))
  | Some Dir => ret 4096%N
  | None => raise (enoent p)
  end.

(** An open binary file: its resolved path and the bytes not yet read. *)
Record rfile := mk_rfile { rf_path : string; rf_rest : bytes }.

(** [open(p, 'rb')] *)
Definition open_rb (p : string) : M rfile :=
  let! k := get (λ w, resolve w p) in
  tick (SysOpen k);;
  let! n := get (λ w, fs w !! k) in
  match n with
  | Some (File b) => ret (mk_rfile k b)
  | Some Dir => raise (eisdir p)
  | None => raise (enoent p)
  end.

(** [f.read(n)], the first read on a fresh handle. *)
Definition file_read (f : rfile) (n : nat) : M bytes :=
  tick (SysRead (rf_path f));;
  ret (take n (rf_rest f)).

(** ** Configuration *)

Module Config.
Definition MAX_FILE_SIZE : N := 100 * 1024 * 1024.
Definition CHUNK_SIZE : nat := 65536.
Definition DETECTION_SAMPLE_SIZE : N := 65536.
Definition COMPATIBILITY_CHECK_SIZE : nat := 1024.
Definition SJIS_SUFFIX : string := "_sjis".
Definition SJISX_SUFFIX : string := "_sjisx".
Definition ENCODING_SHIFT_JIS : string := "SHIFT_JIS".
Definition ENCODING_UTF8 : string := "UTF-8".
Definition ENCODING_UTF8_SIG_BOM : string := "UTF-8-SIG（BOMあり）".
Definition DEFAULT_READ_ENCODING_FOR_ASCII : string := "utf-8".
End Config.

(** ** The binary and BOM classifier *)

Definition bom_utf16le : bytes := [xff; xfe].
Definition bom_utf16be : bytes := [xfe; xff].
Definition bom_utf8 : bytes := [xef; xbb; xbf].

Definition is_binary_file (filepath : string) : M bool :=
  try_except
    (let! f := open_rb filepath in
     let! chunk := file_read f 1024 in
     if bool_decide (chunk = []) then ret false
     else if startswith bom_utf16le chunk || startswith bom_utf16be chunk
          then ret false
          else ret (contains x00 chunk))
    (except_Exception (λ _, ret true)).

Definition has_bom_utf8 (filepath : string) : M bool :=
  try_except
    (let! f := open_rb filepath in
     let! bom := file_read f 3 in
     ret (bool_decide (bom = bom_utf8)))
    (except_Exception (λ _, ret false)).

(** Opening [p] and reading from it fails with an [Exception]: the oracle
    fails the open, the path is missing or a directory, or the oracle fails
    the read. *)
Definition io_failure (w : World) (p : string) : Prop :=
  let k := resolve w p in
  (∃ e, fault w (clock w) (SysOpen k) = Some e ∧ is_Exception e = true)
  ∨ (fault w (clock w) (SysOpen k) = None
     ∧ (fs w !! k = None
        ∨ fs w !! k = Some Dir
        ∨ ∃ b e, fs w !! k = Some (File b)
                 ∧ fault w (S (clock w)) (SysRead k) = Some e
                 ∧ is_Exception e = true)).

(** Opening [p] and reading from it goes through, on the content [b]. *)
Definition io_success (w : World) (p : string) (b : bytes) : Prop :=
  let k := resolve w p in
  fs w !! k = Some (File b)
  ∧ fault w (clock w) (SysOpen k) = None
  ∧ fault w (S (clock w)) (SysRead k) = None.

(** ** Strings *)

(** [s.lower()] and [s.upper()], on the ASCII letters (encoding names are
    ASCII). *)
Definition lower_ascii (c : ascii) : ascii :=
  let n := nat_of_ascii c in
  if (65 <=? n)%nat && (n <=? 90)%nat then ascii_of_nat (n + 32) else c.

Definition upper_ascii (c : ascii) : ascii :=
  let n := nat_of_ascii c in
  if (97 <=? n)%nat && (n <=? 122)%nat then ascii_of_nat (n - 32) else c.

Fixpoint map_string (f : ascii → ascii) (s : string) : string :=
  match s with
  | EmptyString => ""
  | String c r => String (f c) (map_string f r)
  end.

Definition lower (s : string) : string := map_string lower_ascii s.
Definition upper (s : string) : string := map_string upper_ascii s.

(** [s.replace('-', '_')] *)
Definition replace_hyphen (s : string) : string :=
  map_string (λ c, if bool_decide (c = "-"%char) then "_"%char else c) s.

(** [s.rfind('.')] as a split: [Some (a, e)] when [s = a ++ e] and [e] starts
    at the last dot of [s]. *)
Fixpoint rsplit_dot (s : string) : option (string * string) :=
  match s with
  | EmptyString => None
  | String c r =>
      match rsplit_dot r with
      | Some (a, e) => Some (String c a, e)
      | None => if bool_decide (c = "."%char) then Some ("", s) else None
      end
  end.

Fixpoint all_dots (s : string) : bool :=
  match s with
  | EmptyString => true
  | String c r => bool_decide (c = "."%char) && all_dots r
  end.

(** [os.path.splitext(p)]: the extension starts at the last dot of the last
    component, unless only dots come before it. *)
Definition splitext (p : string) : string * string :=
  match rsplit_dot (basename p) with
  | Some (a, e) => if all_dots a then (p, "") else (head_of p +:+ a, e)
  | None => (p, "")
  end.

(** [posixpath.split(p)]: [dirname] and [basename] at once. *)
Definition path_split (p : string) : string * string := (dirname p, basename p).

(** ** Strict UTF-8 *)

Definition in_range (lo hi : N) (b : byte) : bool :=
  ((lo <=? Byte.to_N b) && (Byte.to_N b <=? hi))%N.

(** Whether [b] is well-formed UTF-8 (no overlong forms, no surrogates,
    nothing above U+10FFFF): what [b.decode('utf-8')] accepts. *)
Fixpoint utf8_well_formed (b : bytes) : bool :=
  match b with
  | [] => true
  | x :: r =>
      if in_range 0x00 0x7F x then utf8_well_formed r
      else if in_range 0xC2 0xDF x then
        match r with
        | y :: r' => in_range 0x80 0xBF y && utf8_well_formed r'
        | _ => false
        end
      else if in_range 0xE0 0xEF x then
        match r with
        | y :: z :: r' =>
            (if in_range 0xE0 0xE0 x then in_range 0xA0 0xBF y
             else if in_range 0xED 0xED x then in_range 0x80 0x9F y
             else in_range 0x80 0xBF y)
            && in_range 0x80 0xBF z && utf8_well_formed r'
        | _ => false
        end
      else if in_range 0xF0 0xF4 x then
        match r with
        | y :: z :: u :: r' =>
            (if in_range 0xF0 0xF0 x then in_range 0x90 0xBF y
             else if in_range 0xF4 0xF4 x then in_range 0x80 0x8F y
             else in_range 0x80 0xBF y)
            && in_range 0x80 0xBF z && in_range 0x80 0xBF u
            && utf8_well_formed r'
        | _ => false
        end
      else false
  end.

(** ** Collaborators *)

(** What [chardet.detect] returns: a dictionary whose ['encoding'] may be
    [None] and whose ['confidence'] may be missing. *)
Record chardet_result := mk_chardet {
  cd_encoding : option string;
  cd_confidence : option float
}.

(** The libraries the program calls and does not contain. *)
Class Collaborators := {
  (** [chardet.detect(data)] *)
  chardet_detect : bytes → option chardet_result;
  (** [f"{x:.2f}"] *)
  format_2f : float → string;
  (** [data.decode(name, errors='replace')]; [None] for a name that
      [codecs.lookup] does not know. *)
  codec_decode : string → option (bytes → text);
  (** [s.encode('shift_jis')]; [None] is [UnicodeEncodeError]. *)
  sjis_encode : text → option bytes;
  (** [b.decode('shift_jis')]; [None] is [UnicodeDecodeError]. *)
  sjis_decode : bytes → option text;
  (** [s.encode('shift_jis', errors='replace')] *)
  sjis_encode_replace : text → bytes
}.

(** ** The encoding detector *)

Definition mapping : gmap string string :=
  list_to_map
    [ ("utf-8", Config.ENCODING_UTF8); ("utf8", Config.ENCODING_UTF8);
      ("utf-8-sig", Config.ENCODING_UTF8_SIG_BOM);
      ("utf8-sig", Config.ENCODING_UTF8_SIG_BOM);
      ("utf-16le", "UTF-16LE"); ("utf16le", "UTF-16LE");
      ("utf-16be", "UTF-16BE"); ("utf16be", "UTF-16BE");
      ("euc-jp", "EUC-JP"); ("eucjp", "EUC-JP");
      ("iso-2022-jp", "ISO-2022-JP"); ("iso2022jp", "ISO-2022-JP");
      ("shift_jis", Config.ENCODING_SHIFT_JIS);
      ("shift-jis", Config.ENCODING_SHIFT_JIS);
      ("sjis", Config.ENCODING_SHIFT_JIS);
      ("cp932", Config.ENCODING_SHIFT_JIS);
      ("windows-31j", Config.ENCODING_SHIFT_JIS);
      ("windows-1252", "WINDOWS-1252");
      ("iso-8859-1", "ISO-8859-1") ].

Definition normalize_encoding_name (encoding : string) : string :=
  if bool_decide (encoding = "") then encoding
  else
    let encoding_lower := lower encoding in
    match mapping !! encoding_lower with
    | Some canonical => canonical
    | None => upper encoding
    end.

Definition test_utf8_decode (raw_data : bytes) : bool :=
  utf8_well_formed raw_data.

Definition msg_too_large (file_size : N) : string :=
  "ファイルサイズが大きすぎます（" +:+ pretty (file_size / (1024 * 1024))%N
  +:+ "MB）".
Definition msg_empty : string := "空ファイルです".
Definition msg_bad_bom : string := "UTF-8 BOMがありますが、内容が不正です".
Definition msg_binary : string := "バイナリファイルです".
Definition msg_undetected : string := "文字コードを検出できませんでした".
Definition msg_no_access : string := "ファイルにアクセスできません".
Definition msg_detect_error (e : exn) : string :=
  "エンコーディング検出エラー: " +:+ str_exn e.

(** The literal [0.8], as the double it denotes. *)
Definition confidence_threshold : float := 0x1.999999999999ap-1%float.

Section Program.
Context `{Collaborators}.

Definition msg_low_confidence (detected : string) (confidence : float)
  : string :=
  "文字コードの検出信頼性が低いです (" +:+ detected +:+ ", confidence="
  +:+ format_2f confidence +:+ ")".

(** [chardet.detect(data)], which like any call may fail. *)
Definition chardet_detect_call (data : bytes) : M (option chardet_result) :=
  tick SysDetect;; ret (chardet_detect data).

(** The pair [detect_encoding] returns: [(encoding, error_msg)]. *)
Definition detect_encoding (filepath : string)
  : M (option string * option string) :=
  try_except
    (let! file_size := os_path_getsize filepath in
     if (Config.MAX_FILE_SIZE <? file_size)%N then
       ret (None, Some (msg_too_large file_size))
     else if (file_size =? 0)%N then ret (None, Some msg_empty)
     else
       let sample_size := N.min file_size Config.DETECTION_SAMPLE_SIZE in
       let! f := open_rb filepath in
       let! raw_data := file_read f (N.to_nat sample_size) in
       if bool_decide (raw_data = []) then ret (None, Some msg_empty)
       else if startswith bom_utf16le raw_data then ret (Some "UTF-16LE", None)
       else if startswith bom_utf16be raw_data then ret (Some "UTF-16BE", None)
       else
         let has_utf8_bom := startswith bom_utf8 raw_data in
         if has_utf8_bom then
           if test_utf8_decode (drop 3 raw_data)
           then ret (Some Config.ENCODING_UTF8_SIG_BOM, None)
           else ret (None, Some msg_bad_bom)
         else
           let! binary := is_binary_file filepath in
           if binary then ret (None, Some msg_binary)
           else
             let data_for_chardet :=
               if has_utf8_bom then drop 3 raw_data else raw_data in
             let! result := chardet_detect_call data_for_chardet in
             match result ≫= cd_encoding with
             | None => ret (None, Some msg_undetected)
             | Some detected_chardet_encoding =>
                 let confidence :=
                   default 0%float (result ≫= cd_confidence) in
                 let normalized_encoding :=
                   normalize_encoding_name detected_chardet_encoding in
                 let gate :=
                   if (confidence_threshold <? confidence)%float then
                     if bool_decide
                          (normalized_encoding = Config.ENCODING_SHIFT_JIS)
                        && test_utf8_decode raw_data
                     then ret (Some Config.ENCODING_UTF8, None)
                     else ret (Some normalized_encoding, None)
                   else
                     ret (None,
                          Some (msg_low_confidence detected_chardet_encoding
                                  confidence))
                 in
                 if bool_decide
                      (normalized_encoding ∈ [Config.ENCODING_UTF8; "ASCII"])
                 then
                   if test_utf8_decode raw_data
                   then ret (Some Config.ENCODING_UTF8, None)
                   else gate
                 else gate
             end)
    (λ e, if is_PermissionError e then Some (ret (None, Some msg_no_access))
          else except_Exception
                 (λ e, ret (None, Some (msg_detect_error e))) e).

(** ** The compatibility scanner *)

Definition get_read_encoding (encoding : string) : string :=
  if bool_decide (encoding = Config.ENCODING_UTF8_SIG_BOM) then "utf-8-sig"
  else if bool_decide (encoding = Config.ENCODING_UTF8) then "utf-8"
  else if bool_decide (encoding = Config.ENCODING_SHIFT_JIS) then "cp932"
  else if bool_decide (encoding = "EUC-JP") then "euc-jp"
  else if bool_decide (encoding = "ISO-2022-JP") then "iso-2022-jp"
  else if bool_decide (encoding = "WINDOWS-1252") then "windows-1252"
  else if bool_decide (encoding = "ISO-8859-1") then "iso-8859-1"
  else if bool_decide (encoding = "ASCII")
       then Config.DEFAULT_READ_ENCODING_FOR_ASCII
       else replace_hyphen (lower encoding).

Definition check_char_sjis_compatibility (c : char) : bool :=
  match sjis_encode [c] with
  | Some encoded =>
      match sjis_decode encoded with
      | Some decoded => bool_decide ([c] = decoded)
      | None => false
      end
  | None => false
  end.

(** ** Reading text *)

(** [l] cut into runs of [n] items, the last one possibly shorter. *)
Fixpoint chunks_fuel {A} (fuel n : nat) (l : list A) : list (list A) :=
  match fuel with
  | 0 => []
  | S fuel' =>
      match l with
      | [] => []
      | _ => take n l :: chunks_fuel fuel' n (drop n l)
      end
  end.

Definition chunks_of {A} (n : nat) (l : list A) : list (list A) :=
  chunks_fuel (length l) n l.

(** A file opened by [codecs.open(p, 'r', encoding=e, errors='replace')]:
    its resolved path and the decoded text not yet read. *)
Record tfile := mk_tfile { tf_path : string; tf_rest : list N }.

(** [codecs.open] opens the file, then looks the codec up. *)
Definition codecs_open_r (p e : string) : M tfile :=
  let! f := open_rb p in
  match codec_decode e with
  | Some decode => ret (mk_tfile (rf_path f) (decode (rf_rest f)))
  | None => raise (LookupError ("unknown encoding: " +:+ e))
  end.

(** The successive non-empty results of [infile.read(n)]. *)
Definition reads (n : nat) (infile : tfile) : list (list N) :=
  chunks_of n (tf_rest infile).

(** [for char in chunk: if not check(char): found = True; break] *)
Fixpoint scan_chunk (chunk : list N) : bool :=
  match chunk with
  | [] => false
  | c :: rest =>
      if negb (check_char_sjis_compatibility c) then true
      else scan_chunk rest
  end.

(** The [while True] loop of the scanner over the chunks still to come;
    each turn starts with a read, the last of which returns nothing. *)
Fixpoint scan_loop (path : string) (pending : list (list N)) : M bool :=
  tick (SysRead path);;
  match pending with
  | [] => ret false
  | chunk :: pending' =>
      if scan_chunk chunk then ret true else scan_loop path pending'
  end.

Definition check_sjis_compatibility_stream (filepath encoding : string)
  : M bool :=
  try_except
    (let read_encoding := get_read_encoding encoding in
     let! infile := codecs_open_r filepath read_encoding in
     scan_loop (tf_path infile) (reads Config.COMPATIBILITY_CHECK_SIZE infile))
    (except_Exception (λ _, ret true)).

(** ** The output namer *)

Definition msg_naming_failed (e : exn) : string :=
  "出力ファイル名の生成に失敗しました: " +:+ str_exn e.

Definition generate_output_filename (filepath : string)
    (has_incompatible_chars : bool) : M (string * string) :=
  try_except
    (let! abs_filepath := os_path_abspath filepath in
     let original_dir := dirname abs_filepath in
     let! dir_exists := os_path_exists original_dir in
     let! original_dir :=
       if dir_exists then ret original_dir else os_getcwd in
     let filename := basename abs_filepath in
     let '(name, ext) := splitext filename in
     let new_filename :=
       if has_incompatible_chars then name +:+ Config.SJISX_SUFFIX +:+ ext
       else name +:+ Config.SJIS_SUFFIX +:+ ext in
     ret (join original_dir new_filename, new_filename))
    (except_Exception (λ e, raise (PyException (msg_naming_failed e)))).

End Program.

(** ** Changing the file system *)

Definition ENOTEMPTY : Z := 39.
Definition EINVAL : Z := 22.

Definition put_fs (m : gmap string node) : M unit :=
  λ w, (Ok tt, set_fs m w).

(** [s.startswith(pre)] *)
Fixpoint starts_with (pre s : string) : bool :=
  match pre, s with
  | EmptyString, _ => true
  | String a pre', String b s' => bool_decide (a = b) && starts_with pre' s'
  | String _ _, EmptyString => false
  end.

Fixpoint drop_string (n : nat) (s : string) : string :=
  match n, s with
  | 0, _ => s
  | S n', String _ s' => drop_string n' s'
  | S _, EmptyString => ""
  end.

(** [k] is [d] or lies below the directory [d]. *)
Definition is_under (d k : string) : bool :=
  bool_decide (k = d) || starts_with (d +:+ "/") k.

(** The place below [dst] of a key [k] that is under [src]. *)
Definition rekey (src dst k : string) : string :=
  dst +:+ drop_string (String.length src) k.

(** The tree at [d], cut out. *)
Definition fs_remove_tree (d : string) (m : gmap string node)
  : gmap string node :=
  filter (λ kv, is_under d kv.1 = false) m.

(** The tree at [src] in [from], planted at [dst] in [into]. *)
Definition fs_graft (src dst : string) (from into : gmap string node)
  : gmap string node :=
  map_fold (λ k v acc, if is_under src k then <[rekey src dst k := v]> acc
                       else acc) into from.

Definition fs_rename_tree (src dst : string) (m : gmap string node)
  : gmap string node :=
  fs_graft src dst m (fs_remove_tree dst (fs_remove_tree src m)).

Definition fs_copy_tree (src dst : string) (m : gmap string node)
  : gmap string node :=
  fs_graft src dst m m.

Definition has_children (d : string) (m : gmap string node) : bool :=
  bool_decide (filter (λ kv, is_under d kv.1 = true ∧ kv.1 ≠ d) m ≠ ∅).

(** A new entry at [k] needs its parent directory. *)
Definition check_parent (k p : string) : M unit :=
  let! m := get fs in
  match m !! dirname k with
  | Some Dir => ret tt
  | Some (File _) => raise (enotdir p)
  | None => raise (enoent p)
  end.

(** [os.remove(p)], also [os.unlink(p)] *)
Definition os_remove (p : string) : M unit :=
  let! k := get (λ w, resolve w p) in
  tick (SysRemove k);;
  let! m := get fs in
  match m !! k with
  | Some (File _) => put_fs (delete k m)
  | Some Dir => raise (eisdir p)
  | None => raise (enoent p)
  end.

(** [os.rename(src, dst)]: a file replaces a file, a directory moves with
    all that is below it and replaces only an empty directory. *)
Definition os_rename (src dst : string) : M unit :=
  let! ks := get (λ w, resolve w src) in
  let! kd := get (λ w, resolve w dst) in
  tick (SysRename ks kd);;
  let! m := get fs in
  match m !! ks with
  | None => raise (enoent src)
  | Some (File b) =>
      match m !! kd with
      | Some Dir => raise (eisdir dst)
      | Some (File _) => put_fs (<[kd := File b]> (delete ks m))
      | None => check_parent kd dst;; put_fs (<[kd := File b]> (delete ks m))
      end
  | Some Dir =>
      if bool_decide (ks = kd) then ret tt
      else if is_under ks kd then raise (oserror EINVAL "Invalid argument" src)
      else
        match m !! kd with
        | Some (File _) => raise (enotdir dst)
        | Some Dir =>
            if has_children kd m
            then raise (oserror ENOTEMPTY "Directory not empty" dst)
            else put_fs (fs_rename_tree ks kd m)
        | None => check_parent kd dst;; put_fs (fs_rename_tree ks kd m)
        end
  end.

(** [os.makedirs(p, exist_ok=True)]: [p] and its missing ancestors become
    directories, in one step; a file in the way is an error. *)
Fixpoint ancestors (fuel : nat) (k : string) : list string :=
  match fuel with
  | 0 => []
  | S fuel' =>
      let d := dirname k in
      if bool_decide (d = k) || bool_decide (d = "") then []
      else d :: ancestors fuel' d
  end.

Definition os_makedirs (p : string) : M unit :=
  let! k := get (λ w, resolve w p) in
  tick (SysMkdir k);;
  let! m := get fs in
  let line := k :: ancestors (String.length k) k in
  if existsb (λ a, match m !! a with Some (File _) => true | _ => false end)
       line
  then raise (eexist p)
  else put_fs (foldr (λ a acc, <[a := Dir]> acc) m line).

(** [os.open(p, O_CREAT | O_EXCL | O_RDWR)] *)
Definition os_open_excl (p : string) : M unit :=
  let! k := get (λ w, resolve w p) in
  tick (SysCreate k);;
  let! m := get fs in
  match m !! k with
  | Some _ => raise (eexist p)
  | None => check_parent k p;; put_fs (<[k := File []]> m)
  end.

(** [os.close(fd)] for the descriptor of [p]. *)
Definition os_close (p : string) : M unit :=
  let! k := get (λ w, resolve w p) in
  tick (SysClose k).

(** [open(p, 'wb')]: the file is created or emptied; the result is the
    resolved path, which stands for the handle. *)
Definition open_wb (p : string) : M string :=
  let! k := get (λ w, resolve w p) in
  tick (SysOpen k);;
  let! m := get fs in
  match m !! k with
  | Some Dir => raise (eisdir p)
  | Some (File _) => put_fs (<[k := File []]> m);; ret k
  | None => check_parent k p;; put_fs (<[k := File []]> m);; ret k
  end.

(** [f.write(data)] on a handle from [open_wb]. *)
Definition file_write (k : string) (data : bytes) : M unit :=
  tick (SysWrite k);;
  let! m := get fs in
  match m !! k with
  | Some (File b) => put_fs (<[k := File (b ++ data)]> m)
  | _ => ret tt
  end.

(** [tempfile.mkstemp(suffix, prefix, dir)]: the first drawn name that is
    free; the descriptor is not modelled, the path stands for it. *)
Fixpoint mkstemp_inner (dir pre suf : string) (names : list string)
  : M string :=
  match names with
  | [] =>
      raise (OSError (Some EEXIST) None
               "[Errno 17] No usable temporary file name found")
  | name :: names' =>
      let file := join dir (pre +:+ name +:+ suf) in
      (λ w, (Ok tt, set_tmp_names names' w));;
      let! created :=
        try_except (os_open_excl file;; ret true)
          (λ e, if is_FileExistsError e then Some (ret false) else None) in
      if created then ret file else mkstemp_inner dir pre suf names'
  end.

Definition tempfile_mkstemp (suffix prefix dir : string) : M string :=
  let! dir := os_path_abspath dir in
  let! names := get tmp_names in
  mkstemp_inner dir prefix suffix names.

(** [shutil.copy2(src, dst)]: the content goes over in one write; the
    file's metadata is not modelled. *)
Definition shutil_copy2 (src dst : string) : M unit :=
  let! fsrc := open_rb src in
  let! fdst := open_wb dst in
  tick (SysRead (rf_path fsrc));;
  file_write fdst (rf_rest fsrc).

(** [shutil.copytree(src, dst)] then [shutil.rmtree(src)]. *)
Definition shutil_copytree (src dst : string) : M unit :=
  let! ks := get (λ w, resolve w src) in
  let! kd := get (λ w, resolve w dst) in
  tick (SysMkdir kd);;
  let! m := get fs in
  match m !! kd with
  | Some _ => raise (eexist dst)
  | None => check_parent kd dst;; put_fs (fs_copy_tree ks kd m)
  end.

Definition shutil_rmtree (p : string) : M unit :=
  let! k := get (λ w, resolve w p) in
  tick (SysRemove k);;
  let! m := get fs in
  put_fs (fs_remove_tree k m).

Definition shutil_Error (msg : string) : exn := OSError None None msg.

(** [shutil.move(src, dst)]: into [dst] when that is a directory; a rename,
    and when the rename fails with an [OSError], a copy and a removal. *)
Definition shutil_move (src dst : string) : M unit :=
  let move_to (real_dst : string) : M unit :=
    try_except (os_rename src real_dst)
      (except_OSError (λ _,
         let! src_is_dir := os_path_isdir src in
         if src_is_dir then
           let! ks := get (λ w, resolve w src) in
           let! kd := get (λ w, resolve w dst) in
           if is_under ks kd then
             raise (shutil_Error
                      ("Cannot move a directory '" +:+ src
                       +:+ "' into itself '" +:+ dst +:+ "'."))
           else shutil_copytree src real_dst;; shutil_rmtree src
         else shutil_copy2 src real_dst;; os_remove src)) in
  let! dst_is_dir := os_path_isdir dst in
  if dst_is_dir then
    let! ks := get (λ w, resolve w src) in
    let! kd := get (λ w, resolve w dst) in
    if bool_decide (ks = kd) then os_rename src dst
    else
      let real_dst := join dst (basename (rstrip_sep src)) in
      let! taken := os_path_exists real_dst in
      if taken then
        raise (shutil_Error
                 ("Destination path '" +:+ real_dst +:+ "' already exists"))
      else move_to real_dst
  else move_to dst.

(** ** The atomic converter *)

Definition msg_tempdir_failed (output_dir : string) (e : exn) : string :=
  "一時ファイル用ディレクトリの作成に失敗: " +:+ output_dir +:+ ", "
  +:+ str_exn e.
Definition msg_temp_failed (e : exn) : string :=
  "一時ファイルの作成に失敗: " +:+ str_exn e.

(** [try: os.remove(p) except OSError: pass] *)
Definition remove_quietly (p : string) : M unit :=
  try_except (os_remove p) (except_OSError (λ _, ret tt)).

(** The function's [try] block has two parts: until [mkstemp] has returned,
    [temp_fd] is [-1] and [temp_filepath] is [None], and the handler only
    re-raises; from then on the handler closes and removes what was made. *)
Definition create_temp_file_safely (output_dir : string) : M string :=
  let! temp_filepath :=
    try_except
      (let! is_dir := os_path_isdir output_dir in
       (if is_dir then ret tt
        else try_except (os_makedirs output_dir)
               (except_OSError (λ e,
                  raise (PyException (msg_tempdir_failed output_dir e)))));;
       tempfile_mkstemp ".tmp" "sjis_conv_" output_dir)
      (except_Exception (λ e, raise (PyException (msg_temp_failed e)))) in
  try_except
    (os_close temp_filepath;; ret temp_filepath)
    (except_Exception (λ e,
       try_except (os_close temp_filepath) (except_OSError (λ _, ret tt));;
       let! still_there := os_path_exists temp_filepath in
       (if negb (bool_decide (temp_filepath = "")) && still_there
        then remove_quietly temp_filepath else ret tt);;
       raise (PyException (msg_temp_failed e)))).

Definition msg_no_permission : string := "ファイルの保存権限がありません".
Definition msg_disk_full : string := "ディスク容量が不足しています".
Definition msg_os_error (e : exn) : string :=
  "ファイルの保存/OSエラー: " +:+ str_exn e.
Definition msg_unexpected_save (e : exn) : string :=
  "ファイルの保存中に予期せぬエラー: " +:+ str_exn e.
Definition msg_output_exists (output_filepath : string) : string :=
  "Output file " +:+ output_filepath +:+ " already exists.".
Definition msg_move_failed (e : exn) : string :=
  "Failed to move temporary file: " +:+ str_exn e.

Definition winerror_of (e : exn) : option Z :=
  match e with OSError _ we _ => we | _ => None end.

Section Converter.
Context `{Collaborators}.

(** [codecs.open(p, 'w', encoding='shift_jis', errors='replace')] *)
Definition codecs_open_w (p : string) : M string := open_wb p.

(** [outfile.write(chunk)] *)
Definition text_write (outfile : string) (chunk : list N) : M unit :=
  file_write outfile (sjis_encode_replace chunk).

(** The copying loop, over the chunks still to come from [infile]. *)
Fixpoint copy_loop (path outfile : string) (pending : list (list N))
  : M unit :=
  tick (SysRead path);;
  match pending with
  | [] => ret tt
  | chunk :: pending' =>
      text_write outfile chunk;; copy_loop path outfile pending'
  end.

(** The [except] clauses of [convert_file_stream], in order. *)
Definition convert_handlers (e : exn) : option (M (bool * option string)) :=
  if is_PermissionError e then Some (ret (false, Some msg_no_permission))
  else if is_OSError e then
    Some (if bool_decide (winerror_of e = Some 112%Z)
          then ret (false, Some msg_disk_full)
          else if has_errno ENOSPC e then ret (false, Some msg_disk_full)
          else ret (false, Some (msg_os_error e)))
  else except_Exception (λ e, ret (false, Some (msg_unexpected_save e))) e.

(** The [finally] clause, for the value [temp_file] has by then. *)
Definition convert_cleanup (temp_file : option string) : M unit :=
  match temp_file with
  | None => ret tt
  | Some t =>
      let! still_there := os_path_exists t in
      if negb (bool_decide (t = "")) && still_there
      then remove_quietly t else ret tt
  end.

(** The first part of the [try] block: up to the assignment of
    [temp_file]. *)
Definition convert_make_temp (output_filepath : string) : M string :=
  let output_dir := dirname output_filepath in
  let! output_dir :=
    if bool_decide (output_dir = "") then os_getcwd else ret output_dir in
  create_temp_file_safely output_dir.

(** The rest of the [try] block. *)
Definition convert_with_temp
    (input_filepath output_filepath read_encoding temp_file : string)
  : M (bool * option string) :=
  let! infile := codecs_open_r input_filepath read_encoding in
  let! outfile := codecs_open_w temp_file in
  copy_loop (tf_path infile) outfile (reads Config.CHUNK_SIZE infile);;
  let! output_exists := os_path_exists output_filepath in
  (if output_exists then
     let backup_file := output_filepath +:+ ".backup" in
     let! backup_exists := os_path_exists backup_file in
     (if backup_exists then remove_quietly backup_file else ret tt);;
     try_except (shutil_move output_filepath backup_file)
       (λ e, if is_FileNotFoundError e then Some (ret tt)
             else if is_OSError e then
               if negb (has_errno ENOENT e) then None else Some (ret tt)
             else None)
   else ret tt);;
  try_except (shutil_move temp_file output_filepath)
    (except_OSError (λ e,
       if has_errno EEXIST e
       then raise (PyException (msg_output_exists output_filepath))
       else raise (PyException (msg_move_failed e))));;
  ret (true, None).

Definition convert_file_stream
    (input_filepath output_filepath encoding : string)
  : M (bool * option string) :=
  let read_encoding := get_read_encoding encoding in
  λ w,
    match convert_make_temp output_filepath w with
    | (Raise e, w1) =>
        try_finally (try_except (raise e) convert_handlers)
          (convert_cleanup None) w1
    | (Ok temp_file, w1) =>
        try_finally
          (try_except
             (convert_with_temp input_filepath output_filepath read_encoding
                temp_file)
             convert_handlers)
          (convert_cleanup (Some temp_file)) w1
    end.

End Converter.

(** ** The orchestrator *)

(** [input()] until a yes or a no; the end of input and an interrupt
    count as no. *)
Fixpoint confirm_loop (events : list stdin_event) : bool * list stdin_event :=
  match events with
  | [] => (false, [])
  | Line s :: rest =>
      let response := lower s in
      if bool_decide (response ∈ ["y"; "yes"]) then (true, rest)
      else if bool_decide (response ∈ ["n"; "no"]) then (false, rest)
      else confirm_loop rest
  | EndOfFile :: rest => (false, rest)
  | Interrupt :: rest => (false, rest)
  end.

Definition confirm_overwrite (filename : string) : M bool :=
  λ w, let '(answer, rest) := confirm_loop (stdin w) in
       (Ok answer, set_stdin rest w).

Record ConversionResult := mk_result {
  success : bool;
  message : string;
  original_encoding : string;
  has_incompatible_chars : bool;
  converted : bool;
  skipped : bool
}.

Definition set_success (b : bool) (r : ConversionResult) :=
  mk_result b (message r) (original_encoding r) (has_incompatible_chars r)
    (converted r) (skipped r).
Definition set_message (s : string) (r : ConversionResult) :=
  mk_result (success r) s (original_encoding r) (has_incompatible_chars r)
    (converted r) (skipped r).
Definition set_original_encoding (s : string) (r : ConversionResult) :=
  mk_result (success r) (message r) s (has_incompatible_chars r)
    (converted r) (skipped r).
Definition set_has_incompatible_chars (b : bool) (r : ConversionResult) :=
  mk_result (success r) (message r) (original_encoding r) b
    (converted r) (skipped r).
Definition set_converted (b : bool) (r : ConversionResult) :=
  mk_result (success r) (message r) (original_encoding r)
    (has_incompatible_chars r) b (skipped r).
Definition set_skipped (b : bool) (r : ConversionResult) :=
  mk_result (success r) (message r) (original_encoding r)
    (has_incompatible_chars r) (converted r) b.

Definition msg_not_found : string := "ファイルが見つかりません".
Definition msg_not_a_file : string := "有効なファイルパスではありません".
Definition msg_skip_empty : string := "空ファイルのためスキップ".
Definition msg_skip_sjis : string := "SHIFT_JISのためスキップ".
Definition msg_declined : string := "変換をキャンセルしました (上書きせず)".
Definition msg_convert_failed : string := "ファイル変換に失敗しました".
Definition msg_cancelled : string := "ユーザーによりキャンセルされました".
Definition msg_unexpected (e : exn) : string := "予期しないエラー: " +:+ str_exn e.

(** The truth value of an optional string: [None] and [''] are false. *)
Definition truthy (s : option string) : bool :=
  match s with
  | Some m => negb (bool_decide (m = ""))
  | None => false
  end.

Section Orchestrator.
Context `{Collaborators}.

(** The two [except] clauses of [convert_to_sjis]; [result] is the
    dictionary as the [try] block left it. *)
Definition orchestrator_handlers (result : ConversionResult) (e : exn)
  : option (M ConversionResult) :=
  match e with
  | KeyboardInterrupt => Some (ret (set_message msg_cancelled result))
  | _ => Some (ret (set_message (msg_unexpected e) result))
  end.

(** The [try] block from the scan on: by then [original_encoding] is set. *)
Definition convert_detected (abs_filepath encoding : string)
    (result : ConversionResult) : M ConversionResult :=
  let! incompatible := check_sjis_compatibility_stream abs_filepath encoding in
  let result := set_has_incompatible_chars incompatible result in
  try_except
    (let! (new_filepath, new_filename) :=
       generate_output_filename abs_filepath (has_incompatible_chars result) in
     let! taken := os_path_exists new_filepath in
     let! go_on :=
       if taken then confirm_overwrite new_filename else ret true in
     if negb go_on then
       ret (set_skipped true (set_message msg_declined result))
     else
       let! (conversion_success, conversion_error) :=
         convert_file_stream abs_filepath new_filepath encoding in
       if conversion_success then
         ret (set_converted true
                (set_message new_filename (set_success true result)))
       else
         ret (set_message
                (if truthy conversion_error then default "" conversion_error
                 else msg_convert_failed) result))
    (orchestrator_handlers result).

Definition convert_to_sjis (filepath : string) : M ConversionResult :=
  let result := mk_result false "" "" false false false in
  try_except
    (let! found := os_path_exists filepath in
     if negb found then ret (set_message msg_not_found result)
     else
       let! abs_filepath := os_path_abspath filepath in
       let! is_file := os_path_isfile abs_filepath in
       if negb is_file then ret (set_message msg_not_a_file result)
       else
         let! (encoding, error_msg) := detect_encoding abs_filepath in
         if truthy error_msg then
           if bool_decide (error_msg = Some msg_empty) then
             ret (set_original_encoding "N/A"
                    (set_skipped true
                       (set_message msg_skip_empty
                          (set_success true result))))
           else ret (set_message (default "" error_msg) result)
         else
           match encoding with
           | None => ret (set_message msg_undetected result)
           | Some encoding =>
               let result := set_original_encoding encoding result in
               if bool_decide (encoding = Config.ENCODING_SHIFT_JIS) then
                 ret (set_skipped true
                        (set_message msg_skip_sjis
                           (set_success true result)))
               else
                 try_except (convert_detected abs_filepath encoding result)
                   (orchestrator_handlers result)
           end)
    (orchestrator_handlers result).

End Orchestrator.

(** ** Reporting *)

(** [format_result_message(result, original_filename)] *)
Definition format_result_message (result : ConversionResult)
    (original_filename : string) : string :=
  if negb (success result) && negb (skipped result) then
    original_filename +:+ " → 変換失敗 (" +:+ message result +:+ ")"
  else if skipped result then
    original_filename +:+ " → " +:+ message result
  else
    let base_message :=
      original_filename +:+ " (" +:+ original_encoding result +:+ ") → "
      +:+ message result +:+ " (" +:+ Config.ENCODING_SHIFT_JIS
      +:+ "へ変換" in
    let base_message :=
      if has_incompatible_chars result
      then base_message +:+ "、代替文字に置換あり"
      else base_message in
    base_message +:+ ")".

(** [sep.join(parts)] *)
Fixpoint str_join (sep : string) (parts : list string) : string :=
  match parts with
  | [] => ""
  | [x] => x
  | x :: xs => x +:+ sep +:+ str_join sep xs
  end.

Definition msg_nothing_done : string := "処理対象なし".

(** The list [summary_parts] of [_display_conversion_summary]. *)
Definition summary_parts (converted_count skipped_count failed_count : nat)
  : list string :=
  (if bool_decide (0 < converted_count)
   then [pretty converted_count +:+ "ファイル変換"] else [])
  ++ (if bool_decide (0 < skipped_count)
      then [pretty skipped_count +:+ "ファイルスキップ"] else [])
  ++ (if bool_decide (0 < failed_count)
      then [pretty failed_count +:+ "ファイル失敗"] else []).

(** Its string [summary_str]. *)
Definition summary_str (converted_count skipped_count failed_count : nat)
  : string :=
  match summary_parts converted_count skipped_count failed_count with
  | [] => msg_nothing_done
  | parts => str_join "、" parts
  end.

Definition newline : string := String "010"%char "".

Definition rule (n : nat) : string :=
  foldr (λ _ s, "=" +:+ s) "" (seq 0 n).

(** [_display_conversion_summary]: the function only prints; the result
    here is what it prints, one string for each call of [print]. *)
Definition _display_conversion_summary
    (results : list (string * ConversionResult))
    (converted_count skipped_count failed_count total_count : nat)
  : list string :=
  [newline +:+ rule 50; "=== 変換結果 ==="]
  ++ map (λ item, format_result_message item.2 item.1) results
  ++ [newline +:+ "処理完了（" +:+ pretty total_count +:+ "ファイル中 "
      +:+ summary_str converted_count skipped_count failed_count +:+ "）";
      rule 50].

(** ** The batch driver *)

(** The local variables of [_process_files_from_args] that its loop
    updates. *)
Record Tally := mk_tally {
  results : list (string * ConversionResult);
  converted_count : nat;
  skipped_count : nat;
  failed_count : nat
}.

Definition add_result (item : string * ConversionResult) (t : Tally) : Tally :=
  mk_tally (results t ++ [item]) (converted_count t) (skipped_count t)
    (failed_count t).
Definition incr_converted (t : Tally) : Tally :=
  mk_tally (results t) (converted_count t + 1) (skipped_count t)
    (failed_count t).
Definition incr_skipped (t : Tally) : Tally :=
  mk_tally (results t) (converted_count t) (skipped_count t + 1)
    (failed_count t).
Definition incr_failed (t : Tally) : Tally :=
  mk_tally (results t) (converted_count t) (skipped_count t)
    (failed_count t + 1).

(** The name a file is reported under. *)
Definition reported_name (i : nat) (filepath_arg : string) : string :=
  if bool_decide (filepath_arg = "") then "ファイル" +:+ pretty i
  else basename filepath_arg.

Section Driver.
Context `{Collaborators}.

(** One turn of the loop, for the [i]-th path; what it prints is not
    modelled.  The body can raise only in [convert_to_sjis], before the
    result is appended, so the handler counts on the tally of before. *)
Definition process_file (i : nat) (filepath_arg : string) (t : Tally)
  : M Tally :=
  try_except
    (let original_filename := reported_name i filepath_arg in
     let! result := convert_to_sjis filepath_arg in
     let t := add_result (original_filename, result) t in
     ret (if success result then
            if skipped result then incr_skipped t
            else if converted result then incr_converted t
            else t
          else if negb (skipped result) then incr_failed t
          else t))
    (except_Exception (λ _, ret (incr_failed t))).

Fixpoint process_loop (i : nat) (filepaths : list string) (t : Tally)
  : M Tally :=
  match filepaths with
  | [] => ret t
  | filepath_arg :: filepaths' =>
      let! t := process_file i filepath_arg t in
      process_loop (S i) filepaths' t
  end.

Definition _process_files_from_args (filepaths : list string)
  : M (list (string * ConversionResult) * nat * nat * nat * nat) :=
  let total_count := length filepaths in
  let! t := process_loop 1 filepaths (mk_tally [] 0 0 0) in
  ret (results t, converted_count t, skipped_count t, failed_count t,
       total_count).

End Driver.

(** ** Normal paths *)

(** [c] contains a slash. *)
Fixpoint has_sep (c : string) : bool :=
  match c with
  | EmptyString => false
  | String a r => bool_decide (a = sep) || has_sep r
  end.

(** A component that [normpath] keeps. *)
Definition proper (c : string) : Prop :=
  has_sep c = false ∧ c ≠ "" ∧ c ≠ "." ∧ c ≠ "..".

(** The path of [n] initial slashes and the components [comps]. *)
Definition nf (n : nat) (comps : list string) : string :=
  slashes n +:+ join_sep comps.

(** [p] is absolute and normalised: what [abspath] returns. *)
Definition normal (p : string) : Prop :=
  ∃ n comps, (n = 1 ∨ n = 2) ∧ Forall proper comps ∧ p = nf n comps.

(** ** Vocabulary for the statements *)

(** [c] is a component that [normpath] keeps: the test for [proper]. *)
Definition is_proper (c : string) : bool :=
  negb (has_sep c) && negb (bool_decide (c = ""))
  && negb (bool_decide (c = ".")) && negb (bool_decide (c = "..")).

(** [p] is written plainly: relative or with one initial slash, and without
    [.], [..], a doubled slash or a trailing slash.  For such a path the
    kernel looks up what [normpath] makes of it; for others it may refuse a
    path that [normpath] mends (a trailing slash after a file's name, a
    [..] after a missing directory). *)
Definition plain (p : string) : bool :=
  match p with
  | EmptyString => false
  | String c r =>
      forallb is_proper (split_sep (if bool_decide (c = sep) then r else p))
  end.

(** What the detector reads of a file of content [b]. *)
Definition detection_sample (b : bytes) : bytes :=
  take (N.to_nat (N.min (N.of_nat (length b)) Config.DETECTION_SAMPLE_SIZE)) b.

(** The oracle fails none of the next [n] system calls. *)
Definition quiet (w : World) (n : nat) : Prop :=
  ∀ i s, i < n → fault w (i + clock w) s = None.

(** [p] names a file of content [b], not empty and within the size limit. *)
Definition regular_file (w : World) (p : string) (b : bytes) : Prop :=
  fs w !! resolve w p = Some (File b)
  ∧ b ≠ []
  ∧ (N.of_nat (length b) ≤ Config.MAX_FILE_SIZE)%N.

(** The pair has exactly one side. *)
Definition exactly_one (r : option string * option string) : Prop :=
  (is_Some r.1 ∧ r.2 = None) ∨ (r.1 = None ∧ is_Some r.2).

(** The number of reads the scanner makes over the chunks [pending]: it
    stops after the first chunk with an incompatible character, or after the
    empty read at the end. *)
Fixpoint reads_needed `{Collaborators} (pending : list (list N)) : nat :=
  match pending with
  | [] => 1
  | chunk :: pending' =>
      if scan_chunk chunk then 1 else S (reads_needed pending')
  end.


(** The world [n] system calls later. *)
Definition later (n : nat) (w : World) : World := set_clock (n + clock w) w.

(** Exactly one of: success and converted, success and skipped, failure. *)
Definition one_outcome (r : ConversionResult) : Prop :=
  let a := success r = true ∧ converted r = true in
  let b := success r = true ∧ skipped r = true in
  let c := success r = false in
  (a ∧ ¬ b ∧ ¬ c) ∨ (¬ a ∧ b ∧ ¬ c) ∨ (¬ a ∧ ¬ b ∧ c).

(** The results the orchestrator can return. *)
Inductive outcome : ConversionResult → Prop :=
| Converted (new_filename encoding : string) (incompatible : bool) :
    outcome (mk_result true new_filename encoding incompatible true false)
| SkippedEmpty :
    outcome (mk_result true msg_skip_empty "N/A" false false true)
| SkippedTarget :
    outcome (mk_result true msg_skip_sjis Config.ENCODING_SHIFT_JIS false
               false true)
| Declined (encoding : string) (incompatible : bool) :
    outcome (mk_result false msg_declined encoding incompatible false true)
| Failed (reason encoding : string) (incompatible : bool) :
    outcome (mk_result false reason encoding incompatible false false).

(** ** A small instance of the collaborators, and worlds to run in *)

Module Sample.

(** UTF-8 with replacement: U+FFFD for each byte that opens no
    well-formed sequence. *)
Fixpoint utf8_decode_replace (b : bytes) : list N :=
  match b with
  | [] => []
  | x :: r =>
      let n := Byte.to_N x in
      if in_range 0x00 0x7F x then n :: utf8_decode_replace r
      else
        match r with
        | y :: r' =>
            if in_range 0xC2 0xDF x && in_range 0x80 0xBF y then
              ((n - 0xC0) * 64 + (Byte.to_N y - 0x80))%N
              :: utf8_decode_replace r'
            else 0xFFFD%N :: utf8_decode_replace r
        | [] => [0xFFFD%N]
        end
  end.

(** The single-byte rows of Python's [shift_jis] codec: ASCII, the yen
    sign and the overline written as 0x5C and 0x7E, and the half-width
    katakana. *)
Definition sjis_encode_char (c : N) : option byte :=
  if (c <? 0x80)%N then Byte.of_N c
  else if (c =? 0xA5)%N then Some x5c
  else if (c =? 0x203E)%N then Some x7e
  else if ((0xFF61 <=? c) && (c <=? 0xFF9F))%N then Byte.of_N (c - 0xFEC0)
  else None.

Definition sjis_decode_byte (b : byte) : option N :=
  let n := Byte.to_N b in
  if (n <? 0x80)%N then Some n
  else if ((0xA1 <=? n) && (n <=? 0xDF))%N then Some (n + 0xFEC0)%N
  else None.

Definition question_mark : byte := x3f.

#[local] Instance collaborators (answer : option chardet_result)
  : Collaborators := {|
  chardet_detect := λ _, answer;
  format_2f := λ x, if (x =? 0.5)%float then "0.50" else "0.00";
  codec_decode := λ name,
    if bool_decide (name = "utf-8") then Some utf8_decode_replace
    else if bool_decide (name = "utf-8-sig") then
      Some (λ b, utf8_decode_replace
                   (if startswith bom_utf8 b then drop 3 b else b))
    else None;
  sjis_encode := λ s, mapM sjis_encode_char s;
  sjis_decode := λ b, mapM sjis_decode_byte b;
  sjis_encode_replace := λ s,
    map (λ c, default question_mark (sjis_encode_char c)) s
|}.

Definition says (name : string) (confidence : float)
  : option chardet_result :=
  Some (mk_chardet (Some name) (Some confidence)).

Definition no_fault : nat → syscall → option exn := λ _ _, None.

Definition hello : bytes := [x68; x65; x6c; x6c; x6f].

Definition files : gmap string node :=
  list_to_map
    [ ("/", Dir); ("/home", Dir); ("/home/user", Dir);
      ("/home/user/hello.txt", File hello);
      ("/home/user/yen.txt", File [xc2; xa5]);
      ("/home/user/empty.txt", File []);
      ("/home/user/bom.txt", File [xef; xbb; xbf; x00]);
      ("/home/user/data.bin", File [x68; x00; x65]) ].

Definition world (m : gmap string node)
    (oracle : nat → syscall → option exn) (input : list stdin_event)
  : World :=
  mkWorld m "/home/user" 0 oracle ["k3x9_q2a"; "w0rld_7z"] input [].

Definition world0 : World := world files no_fault [].

(** The output of an earlier run is in the way, and the user says no. *)
Definition world_declined : World :=
  world (<["/home/user/hello_sjis.txt" := File hello]> files) no_fault
    [Line "maybe"; Line "N"].

End Sample.

(** ** Vocabulary for the properties of the driver and the converter *)

(** How many of the results satisfy [f]. *)
Definition counts (f : ConversionResult → bool)
    (rs : list (string * ConversionResult)) : nat :=
  length (List.filter (λ item, f item.2) rs).

(** The result of an overwrite that the user declined. *)
Definition is_declined (r : ConversionResult) : bool :=
  negb (success r) && skipped r.

(** [c] is a decimal digit. *)
Definition is_digit (c : ascii) : bool :=
  (48 <=? nat_of_ascii c) && (nat_of_ascii c <=? 57).

(** The answers [confirm_overwrite] accepts, after [lower]. *)
Definition says_yes (s : string) : bool :=
  bool_decide (lower s ∈ ["y"; "yes"]).
Definition says_no (s : string) : bool :=
  bool_decide (lower s ∈ ["n"; "no"]).

(** The oracle fails no system call. *)
Definition calm (w : World) : Prop := ∀ n s, fault w n s = None.

(** The name [mkstemp] gives the temporary file for the drawn [name]. *)
Definition temp_name (name : string) : string :=
  "sjis_conv_" +:+ name +:+ ".tmp".

(** What the converter writes for the text [s]: the encoding of its chunks,
    one after the other. *)
Definition converted_bytes `{Collaborators} (s : list N) : bytes :=
  concat (sjis_encode_replace <$> chunks_of Config.CHUNK_SIZE s).

(** What [convert_file_stream] answers when it cannot open the input: the
    path is missing or a directory, or the codec is unknown. *)
Definition unreadable_reason (n : option node) (input encoding : string)
  : string :=
  match n with
  | None => msg_os_error (enoent input)
  | Some Dir => msg_os_error (eisdir input)
  | Some (File _) =>
      msg_unexpected_save
        (LookupError ("unknown encoding: " +:+ get_read_encoding encoding))
  end.

(** The two answers of [convert_file_stream]: [(True, None)], or [False]
    with a reason that is not empty. *)
Definition is_report (x : bool * option string) : Prop :=
  x = (true, None) ∨ ∃ reason, x = (false, Some reason) ∧ reason ≠ "".

(** The name the namer gives the output of [filepath]. *)
Definition new_name (filepath : string) (incompatible : bool) : string :=
  let '(name, ext) := splitext (basename filepath) in
  if incompatible then name +:+ Config.SJISX_SUFFIX +:+ ext
  else name +:+ Config.SJIS_SUFFIX +:+ ext.

(** The text has a character that does not come back from Shift_JIS. *)
Definition has_incompatible `{Collaborators} (s : list N) : bool :=
  existsb (λ c, negb (check_char_sjis_compatibility c)) s.




(** [s] contains a dot. *)
Fixpoint has_dot (s : string) : bool :=
  match s with
  | EmptyString => false
  | String c r => bool_decide (c = "."%char) || has_dot r
  end.



(** * Properties *)

(** ** Tactics *)

(** Run the monad one step further on the goal. *)
Ltac step :=
  unfold try_except, try_finally, except_Exception, except_OSError, bind, ret,
    raise, get, tick in *; simpl in *.

Arguments startswith : simpl never.
Arguments contains : simpl never.
Arguments resolve : simpl never.
Arguments normpath : simpl never.
Arguments join : simpl never.

(** ** Reasoning about runs *)

(** [wp m Q w]: running [m] from [w] ends in an outcome and a world that
    satisfy [Q]. *)
Definition wp {A} (m : M A) (Q : res A → World → Prop) (w : World) : Prop :=
  Q (m w).1 (m w).2.

(** The postconditions that the rules below hand on. *)
Definition bindQ {A B} (k : A → M B) (Q : res B → World → Prop)
  : res A → World → Prop :=
  λ r w, match r with
         | Ok a => wp (k a) Q w
         | Raise e => Q (Raise e) w
         end.

Definition exceptQ {A} (h : exn → option (M A)) (Q : res A → World → Prop)
  : res A → World → Prop :=
  λ r w, match r with
         | Ok a => Q (Ok a) w
         | Raise e => match h e with
                      | Some k => wp k Q w
                      | None => Q (Raise e) w
                      end
         end.

Definition finallyQ {A} (f : M unit) (Q : res A → World → Prop)
  : res A → World → Prop :=
  λ r w, wp f (λ r' w', match r' with
                        | Ok _ => Q r w'
                        | Raise e => Q (Raise e) w'
                        end) w.

Lemma wp_ret {A} (a : A) Q w : Q (Ok a) w → wp (ret a) Q w.
Proof. done. Qed.

Lemma wp_raise {A} e (Q : res A → World → Prop) w :
  Q (Raise e) w → wp (raise e) Q w.
Proof. done. Qed.

Lemma wp_get {A} (f : World → A) Q w : Q (Ok (f w)) w → wp (get f) Q w.
Proof. done. Qed.

Lemma wp_bind {A B} (m : M A) (k : A → M B) Q w :
  wp m (bindQ k Q) w → wp (bind m k) Q w.
Proof. unfold wp, bind, bindQ. by destruct (m w) as [[a | e] w']. Qed.

Lemma wp_try_except {A} (m : M A) h Q w :
  wp m (exceptQ h Q) w → wp (try_except m h) Q w.
Proof.
  unfold wp, try_except, exceptQ. destruct (m w) as [[a | e] w']; [done |].
  simpl. by destruct (h e).
Qed.

Lemma wp_try_finally {A} (m : M A) f Q w :
  wp m (finallyQ f Q) w → wp (try_finally m f) Q w.
Proof.
  unfold try_finally, finallyQ, wp. destruct (m w) as [r w']. simpl.
  destruct (f w') as [[[] | e] w'']; simpl; auto.
Qed.

Lemma wp_mono {A} (m : M A) (Q Q' : res A → World → Prop) w :
  wp m Q w → (∀ r w', Q r w' → Q' r w') → wp m Q' w.
Proof. unfold wp. auto. Qed.

Lemma wp_tick s Q w :
  (∀ e, fault w (clock w) s = Some e →
        Q (Raise e) (set_clock (S (clock w)) w)) →
  (fault w (clock w) s = None → Q (Ok tt) (set_clock (S (clock w)) w)) →
  wp (tick s) Q w.
Proof. unfold wp, tick. destruct (fault w (clock w) s); simpl; auto. Qed.

Lemma wp_put_fs m Q w : Q (Ok tt) (set_fs m w) → wp (put_fs m) Q w.
Proof. done. Qed.

Lemma wp_fst_eq {A} (m : M A) w x : wp m (λ r _, r = x) w → (m w).1 = x.
Proof. done. Qed.

Lemma wp_run {A} (m : M A) Q w : Q (m w).1 (m w).2 → wp m Q w.
Proof. done. Qed.

Lemma resolve_set_clock n w p : resolve (set_clock n w) p = resolve w p.
Proof. done. Qed.
Lemma resolve_set_fs m w p : resolve (set_fs m w) p = resolve w p.
Proof. done. Qed.
Lemma resolve_set_tmp_names l w p : resolve (set_tmp_names l w) p = resolve w p.
Proof. done. Qed.
Lemma resolve_set_stdin l w p : resolve (set_stdin l w) p = resolve w p.
Proof. done. Qed.

(** Reduce what a rule leaves at the head of the goal, and the fields of a
    world that has been written to. *)
Ltac wp_simpl :=
  cbn [bindQ exceptQ finallyQ fst snd fs cwd clock fault tmp_names stdin hist
       set_fs set_clock set_tmp_names set_stdin rf_path rf_rest tf_path
       tf_rest negb andb orb is_Exception is_OSError enoent eisdir enotdir
       eexist oserror shutil_Error];
  unfold except_Exception, except_OSError;
  rewrite ?resolve_set_clock, ?resolve_set_fs, ?resolve_set_tmp_names,
    ?resolve_set_stdin.

Lemma wp_tick_quiet s Q w :
  fault w (clock w) s = None →
  Q (Ok tt) (set_clock (S (clock w)) w) →
  wp (tick s) Q w.
Proof. intros Hf HQ. unfold wp, tick. by rewrite Hf. Qed.

Lemma wp_tick_fault s e Q w :
  fault w (clock w) s = Some e →
  Q (Raise e) (set_clock (S (clock w)) w) →
  wp (tick s) Q w.
Proof. intros Hf HQ. unfold wp, tick. by rewrite Hf. Qed.

(** A fact in the context that says the oracle fails this call. *)
Ltac fault_here :=
  cbn [fault clock set_clock set_fs set_tmp_names set_stdin];
  match goal with
  | F : fault ?w ?n ?s = Some _ |- fault ?w ?n ?s = Some _ => exact F
  end.

(** A fact in the context that says the oracle lets this call through. *)
Ltac quiet_here :=
  cbn [fault clock set_clock set_fs set_tmp_names set_stdin];
  match goal with
  | F : ∀ s, _ < _ → fault ?w ?n s = None |- fault ?w ?n _ = None =>
      apply F; lia
  | F : fault ?w ?n ?s = None |- fault ?w ?n ?s = None => exact F
  end.

(** Case analysis on [x], unless the context already says what [x] is. *)
Ltac case_known x :=
  first
    [ match goal with E : x = _ |- _ => rewrite E end
    | lazymatch x with
      | negb ?y => match goal with E : y = _ |- _ => rewrite E end
      end
    | match goal with
      | E : ?m !! ?k = _ |- _ =>
          lazymatch x with context [m !! k] => rewrite E end
      end
    | destruct x eqn:? ].

(** One rule, chosen by the shape of the program; a run that the context
    knows is replayed. *)
Ltac wp_rule :=
  lazymatch goal with
  | E : ?m ?w = (_, _) |- wp ?m _ ?w => apply wp_run; rewrite E
  | |- wp (bind _ _) _ _ => apply wp_bind
  | |- wp (ret _) _ _ => apply wp_ret
  | |- wp (raise _) _ _ => apply wp_raise
  | |- wp (get _) _ _ => apply wp_get
  | |- wp (put_fs _) _ _ => apply wp_put_fs
  | |- wp (try_except _ _) _ _ => apply wp_try_except
  | |- wp (try_finally _ _) _ _ => apply wp_try_finally
  | |- wp (tick _) _ _ =>
      first [ apply wp_tick_quiet; [quiet_here |]
            | eapply wp_tick_fault; [fault_here |]
            | apply wp_tick; [intros ? ? | intros ?] ]
  | |- wp (os_path_exists _) _ _ => unfold os_path_exists
  | |- wp (os_path_isfile _) _ _ => unfold os_path_isfile
  | |- wp (os_path_isdir _) _ _ => unfold os_path_isdir
  | |- wp os_getcwd _ _ => unfold os_getcwd
  | |- wp (os_path_getsize _) _ _ => unfold os_path_getsize
  | |- wp (open_rb _) _ _ => unfold open_rb
  | |- wp (file_read _ _) _ _ => unfold file_read
  | |- wp (check_parent _ _) _ _ => unfold check_parent
  | |- wp (if ?b then _ else _) _ _ => case_known b
  | |- wp (match ?x with _ => _ end) _ _ => case_known x
  | |- wp (let _ := _ in _) _ _ => cbv zeta
  | |- match (if ?b then _ else _) with _ => _ end => case_known b
  | |- match (match ?x with _ => _ end) with _ => _ end => case_known x
  end; wp_simpl.

Ltac wp_steps := repeat wp_rule.

(** Run a call about which nothing need be known. *)
Ltac wp_any :=
  lazymatch goal with
  | |- wp ?m _ ?w =>
      let r := fresh "r" in
      apply wp_run; destruct (m w) as [[r | r] ?]; wp_simpl
  end.

Lemma quiet_weaken w n m : quiet w n → m ≤ n → quiet w m.
Proof. intros Hq Hle i s Hi. apply Hq. lia. Qed.

(** After one call, the oracle is quiet for one call less. *)
Lemma quiet_next w n : quiet w (S n) → quiet (set_clock (S (clock w)) w) n.
Proof.
  intros Hq i s Hi. cbn [fault clock set_clock].
  replace (i + S (clock w)) with (S i + clock w) by lia. apply Hq. lia.
Qed.

Lemma quiet_now w n s : quiet w (S n) → fault w (clock w) s = None.
Proof. intros Hq. apply (Hq 0). lia. Qed.

(** The first calls of a quiet run do not fail. *)
Ltac quiet_facts Hq :=
  let F := fresh "F" in
  pose proof (λ s, Hq 0 s) as F; cbn [Nat.add] in F;
  try (let F := fresh "F" in pose proof (λ s, Hq 1 s) as F; cbn [Nat.add] in F);
  try (let F := fresh "F" in pose proof (λ s, Hq 2 s) as F; cbn [Nat.add] in F);
  try (let F := fresh "F" in pose proof (λ s, Hq 3 s) as F; cbn [Nat.add] in F);
  try (let F := fresh "F" in pose proof (λ s, Hq 4 s) as F; cbn [Nat.add] in F);
  try (let F := fresh "F" in pose proof (λ s, Hq 5 s) as F; cbn [Nat.add] in F).

(** ** The binary and BOM classifier *)

Lemma is_binary_file_io_success w p b :
  io_success w p b →
  (is_binary_file p w).1
  = Ok (contains x00 (take 1024 b)
        && negb (startswith bom_utf16le (take 1024 b)
                 || startswith bom_utf16be (take 1024 b))).
Proof.
  intros (Hfs & Ho & Hr).
  unfold is_binary_file, open_rb, file_read. step.
  rewrite Ho. simpl. rewrite Hfs. simpl. rewrite Hr. simpl.
  case_bool_decide as Hs.
  - rewrite Hs. reflexivity.
  - destruct (startswith bom_utf16le _ || startswith bom_utf16be _),
      (contains x00 _); reflexivity.
Qed.

(** Whatever the handler answers, a failing open or read ends in it. *)
Lemma io_failure_handled {A} w p n (body : bytes → M A) (a : A) :
  io_failure w p →
  (try_except (let! f := open_rb p in
               let! chunk := file_read f n in body chunk)
     (except_Exception (λ _, ret a)) w).1 = Ok a.
Proof.
  intros [(e & He & Hexc) | (Ho & Hcase)]; unfold open_rb, file_read; step.
  - rewrite He. simpl. by rewrite Hexc.
  - rewrite Ho. simpl.
    destruct Hcase as [Hn | [Hd | (b & e & Hb & Hr & Hexc)]].
    + rewrite Hn. reflexivity.
    + rewrite Hd. reflexivity.
    + rewrite Hb. simpl. rewrite Hr. simpl. by rewrite Hexc.
Qed.

Lemma is_binary_file_io_failure w p :
  io_failure w p → (is_binary_file p w).1 = Ok true.
Proof. apply io_failure_handled. Qed.

(** C7: [is_binary_file] answers true exactly when the leading sample of at
    most 1024 bytes holds a null byte and does not begin with a UTF-16
    byte-order mark; an empty sample gives false; and when opening or reading
    the file fails, the answer is true. *)
Theorem is_binary_file_spec (w : World) (p : string) :
  (∀ b, io_success w p b →
     let sample := take 1024 b in
     (is_binary_file p w).1
     = Ok (contains x00 sample
           && negb (startswith bom_utf16le sample
                    || startswith bom_utf16be sample))
     ∧ (sample = [] → (is_binary_file p w).1 = Ok false))
  ∧ (io_failure w p → (is_binary_file p w).1 = Ok true).
Proof.
  split.
  - intros b Hb sample. pose proof (is_binary_file_io_success w p b Hb) as E.
    split; [exact E |]. intros Hs. rewrite E. fold sample. rewrite Hs.
    reflexivity.
  - apply is_binary_file_io_failure.
Qed.

Lemma is_binary_file_spec_witness :
  (is_binary_file "data.bin" Sample.world0).1 = Ok true
  ∧ (is_binary_file "hello.txt" Sample.world0).1 = Ok false
  ∧ (is_binary_file "missing.txt" Sample.world0).1 = Ok true.
Proof.
  assert (io_success Sample.world0 "data.bin" [x68; x00; x65]) as H1
    by (split; [| split]; vm_compute; reflexivity).
  assert (io_success Sample.world0 "hello.txt" Sample.hello) as H2
    by (split; [| split]; vm_compute; reflexivity).
  assert (io_failure Sample.world0 "missing.txt") as H3
    by (right; split; [reflexivity | left; vm_compute; reflexivity]).
  split; [| split].
  - exact (proj1 (proj1 (is_binary_file_spec Sample.world0 "data.bin") _ H1)).
  - exact (proj1 (proj1 (is_binary_file_spec Sample.world0 "hello.txt") _ H2)).
  - exact (proj2 (is_binary_file_spec Sample.world0 "missing.txt") H3).
Defined.

(** C10: when opening or reading the file raises an exception,
    [has_bom_utf8] answers false, it does not raise; the binary check
    answers true on the same failure. *)
Theorem has_bom_utf8_io_failure (w : World) (p : string) :
  io_failure w p →
  (has_bom_utf8 p w).1 = Ok false ∧ (is_binary_file p w).1 = Ok true.
Proof.
  intros Hf. split.
  - by apply io_failure_handled.
  - by apply is_binary_file_io_failure.
Qed.

Lemma has_bom_utf8_io_failure_witness :
  (has_bom_utf8 "/home" Sample.world0).1 = Ok false
  ∧ (is_binary_file "/home" Sample.world0).1 = Ok true.
Proof.
  apply (has_bom_utf8_io_failure Sample.world0 "/home").
  right. split; [reflexivity | right; left; vm_compute; reflexivity].
Defined.


(** ** The encoding detector *)

Section Detector.
Context `{Collaborators}.

Lemma detection_sample_nonempty b : b ≠ [] → detection_sample b ≠ [].
Proof.
  destruct b as [| x b]; [done |]. intros _. unfold detection_sample.
  assert (∃ n, N.to_nat (N.min (N.of_nat (length (x :: b)))
                           Config.DETECTION_SAMPLE_SIZE) = S n) as [n ->].
  { exists (Nat.pred (N.to_nat (N.min (N.of_nat (length (x :: b)))
                                  Config.DETECTION_SAMPLE_SIZE))).
    unfold Config.DETECTION_SAMPLE_SIZE. simpl length. lia. }
  done.
Qed.

(** Every pair the detector returns has exactly one side. *)
Lemma detect_encoding_exactly_one w p :
  wp (detect_encoding p) (λ r _, ∀ x, r = Ok x → exactly_one x) w.
Proof.
  unfold detect_encoding, chardet_detect_call.
  wp_steps; try wp_any; wp_steps.
  all: try (intros x [= <-]; unfold exactly_one; simpl; eauto).
  all: try done.
Qed.

(** A regular file read without faults: the detector gets past the size
    checks, the UTF-16 marks and, without a UTF-8 mark, the binary check,
    and decides on what chardet says of the sample. *)
Lemma detect_encoding_decides w p b result :
  let raw := detection_sample b in
  regular_file w p b → quiet w 6 →
  startswith bom_utf16le raw = false →
  startswith bom_utf16be raw = false →
  startswith bom_utf8 raw = false →
  contains x00 (take 1024 b) = false →
  chardet_detect raw = result →
  (detect_encoding p w).1
  = match result ≫= cd_encoding with
    | None => Ok (None, Some msg_undetected)
    | Some detected =>
        let confidence := default 0%float (result ≫= cd_confidence) in
        let normalized := normalize_encoding_name detected in
        if bool_decide (normalized ∈ [Config.ENCODING_UTF8; "ASCII"])
           && test_utf8_decode raw
        then Ok (Some Config.ENCODING_UTF8, None)
        else if (confidence_threshold <? confidence)%float then
          if bool_decide (normalized = Config.ENCODING_SHIFT_JIS)
             && test_utf8_decode raw
          then Ok (Some Config.ENCODING_UTF8, None)
          else Ok (Some normalized, None)
        else Ok (None, Some (msg_low_confidence detected confidence))
    end.
Proof.
  intros raw (Hfs & Hne & Hsize) Hq H16le H16be Hbom Hnull <-.
  quiet_facts Hq.
  assert ((Config.MAX_FILE_SIZE <? N.of_nat (length b))%N = false) as Hmax
    by (apply N.ltb_ge; exact Hsize).
  assert ((N.of_nat (length b) =? 0)%N = false) as Hzero.
  { apply N.eqb_neq. destruct b; [done | simpl; lia]. }
  pose proof (bool_decide_eq_false_2 _ (detection_sample_nonempty b Hne))
    as Hraw.
  assert (bool_decide (take 1024 b = []) = false) as Hchunk.
  { apply bool_decide_eq_false_2. destruct b; [done | by simpl]. }
  unfold raw, detection_sample in *. clear raw.
  apply wp_fst_eq.
  unfold detect_encoding, chardet_detect_call, is_binary_file.
  wp_steps; cbn [andb]; rewrite ?andb_false_r; try reflexivity.
Qed.

(** C6: once chardet has named a candidate, the detector decides in this
    order.  A candidate that normalizes to UTF-8 or ASCII, on a sample that
    decodes as strict UTF-8, gives UTF-8 whatever the confidence.  Otherwise a
    confidence that is not above 0.8 gives the low-confidence reason, which
    carries the candidate's raw name and the confidence.  Above 0.8, a
    Shift_JIS candidate on a sample that decodes as UTF-8 gives UTF-8, and
    any other candidate gives its normalized name. *)
Theorem detect_encoding_order (w : World) (p : string) (b : bytes)
    (name : string) (c : option float) :
  let raw := detection_sample b in
  let normalized := normalize_encoding_name name in
  let confidence := default 0%float c in
  let utf8_candidate :=
    (normalized = "UTF-8" ∨ normalized = "ASCII")
    ∧ test_utf8_decode raw = true in
  let outcome := (detect_encoding p w).1 in
  regular_file w p b → quiet w 6 →
  startswith bom_utf16le raw = false →
  startswith bom_utf16be raw = false →
  startswith bom_utf8 raw = false →
  contains x00 (take 1024 b) = false →
  chardet_detect raw = Some (mk_chardet (Some name) c) →
  (utf8_candidate → outcome = Ok (Some "UTF-8", None))
  ∧ (¬ utf8_candidate → (confidence_threshold <? confidence)%float = false →
     outcome
     = Ok (None,
           Some ("文字コードの検出信頼性が低いです (" +:+ name
                 +:+ ", confidence=" +:+ format_2f confidence +:+ ")")))
  ∧ ((confidence_threshold <? confidence)%float = true →
     normalized = "SHIFT_JIS" → test_utf8_decode raw = true →
     outcome = Ok (Some "UTF-8", None))
  ∧ (¬ utf8_candidate → (confidence_threshold <? confidence)%float = true →
     ¬ (normalized = "SHIFT_JIS" ∧ test_utf8_decode raw = true) →
     outcome = Ok (Some normalized, None)).
Proof.
  intros raw normalized confidence utf8_candidate outcome
    Hfile Hq H16le H16be Hbom Hnull Hres.
  pose proof (detect_encoding_decides w p b _ Hfile Hq H16le H16be Hbom Hnull
                Hres) as E.
  cbn [mbind option_bind cd_encoding cd_confidence] in E.
  fold raw normalized confidence outcome in E.
  assert (bool_decide (normalized ∈ [Config.ENCODING_UTF8; "ASCII"])
          && test_utf8_decode raw = true ↔ utf8_candidate) as HA.
  { unfold utf8_candidate. rewrite andb_true_iff, bool_decide_eq_true.
    unfold Config.ENCODING_UTF8. rewrite !elem_of_cons, elem_of_nil.
    tauto. }
  assert (bool_decide (normalized = Config.ENCODING_SHIFT_JIS)
          && test_utf8_decode raw = true
          ↔ normalized = "SHIFT_JIS" ∧ test_utf8_decode raw = true) as HB.
  { by rewrite andb_true_iff, bool_decide_eq_true. }
  destruct (bool_decide (normalized ∈ [Config.ENCODING_UTF8; "ASCII"])
            && test_utf8_decode raw) eqn:EA.
  - assert utf8_candidate as HU by (by apply HA).
    split; [done |]. split; [done |]. split; [| done].
    intros _ Hs _. destruct HU as [[HU | HU] _]; congruence.
  - assert (¬ utf8_candidate) as HU by (rewrite <- HA; congruence).
    split; [done |].
    destruct (confidence_threshold <? confidence)%float eqn:EG.
    + split; [done |].
      destruct (bool_decide (normalized = Config.ENCODING_SHIFT_JIS)
                && test_utf8_decode raw) eqn:EB.
      * split; [done |]. intros _ _ HnB. exfalso. apply HnB. by apply HB.
      * split; [| done]. intros _ Hs Hu. exfalso.
        assert (false = true) by (apply HB; done). done.
    + split; [done |]. split; [done |]. done.
Qed.

End Detector.

Lemma detect_encoding_order_witness :
  (@detect_encoding (Sample.collaborators (Sample.says "sjis" 1))
     "hello.txt" Sample.world0).1
  = Ok (Some "UTF-8", None).
Proof.
  refine (proj1 (proj2 (proj2
    (@detect_encoding_order (Sample.collaborators (Sample.says "sjis" 1))
       Sample.world0 "hello.txt" Sample.hello "sjis" (Some 1%float)
       _ _ _ _ _ _ _))) _ _ _).
  - split; [| split]; vm_compute; [reflexivity | discriminate | discriminate].
  - intros i s Hi. reflexivity.
  - vm_compute. reflexivity.
  - vm_compute. reflexivity.
  - vm_compute. reflexivity.
  - vm_compute. reflexivity.
  - reflexivity.
  - vm_compute. reflexivity.
  - vm_compute. reflexivity.
  - vm_compute. reflexivity.
Defined.


(** ** Paths *)

Lemma append_nil_l s : "" +:+ s = s.
Proof. reflexivity. Qed.

Lemma append_cons a s t : String a s +:+ t = String a (s +:+ t).
Proof. reflexivity. Qed.

(** Push an append through the head of its left side. *)
Ltac sapp := rewrite ?append_cons, ?append_nil_l.

Lemma append_nil_r s : s +:+ "" = s.
Proof. induction s; sapp; congruence. Qed.

Lemma append_assoc s1 s2 s3 : (s1 +:+ s2) +:+ s3 = s1 +:+ (s2 +:+ s3).
Proof. induction s1; sapp; congruence. Qed.

Lemma length_append s1 s2 :
  String.length (s1 +:+ s2) = String.length s1 + String.length s2.
Proof. induction s1; sapp; simpl; congruence. Qed.

Lemma split_sep_nonempty p : split_sep p ≠ [].
Proof.
  destruct p as [| c r]; simpl; [done |].
  case_bool_decide; [done |]. by destruct (split_sep r).
Qed.

Lemma split_sep_app a b :
  split_sep (a +:+ String sep b) = split_sep a ++ split_sep b.
Proof.
  induction a as [| c a IH]; sapp; simpl.
  - done.
  - case_bool_decide; [by rewrite IH |].
    rewrite IH. pose proof (split_sep_nonempty a).
    by destruct (split_sep a).
Qed.

Lemma split_sep_no_sep c : has_sep c = false → split_sep c = [c].
Proof.
  induction c as [| a c IH]; simpl; [done |].
  intros [Ha Hc]%orb_false_elim. rewrite Ha. by rewrite IH.
Qed.

Lemma split_sep_has_no_sep p : Forall (λ c, has_sep c = false) (split_sep p).
Proof.
  induction p as [| a p IH]; simpl.
  - by constructor.
  - case_bool_decide as Ha; [by constructor |].
    destruct (split_sep p) as [| x xs]; [by repeat constructor; simpl;
      rewrite bool_decide_eq_false_2 |].
    inversion IH; subst. constructor; [| done]. simpl.
    by rewrite bool_decide_eq_false_2.
Qed.

Lemma join_sep_cons x y l :
  join_sep (x :: y :: l) = x +:+ String sep (join_sep (y :: l)).
Proof. reflexivity. Qed.

Lemma join_split_sep p : join_sep (split_sep p) = p.
Proof.
  induction p as [| a p IH]; simpl; [done |].
  pose proof (split_sep_nonempty p) as Hne.
  destruct (split_sep p) as [| y ys] eqn:E; [done |].
  case_bool_decide as Ha.
  - rewrite join_sep_cons, IH. sapp. by rewrite Ha.
  - destruct ys as [| z zs].
    + simpl in *. by rewrite IH.
    + rewrite join_sep_cons. rewrite join_sep_cons in IH. sapp.
      by rewrite IH.
Qed.

Lemma split_join_sep comps :
  comps ≠ [] → Forall (λ c, has_sep c = false) comps →
  split_sep (join_sep comps) = comps.
Proof.
  induction comps as [| x [| y l] IH]; intros Hne Hall; [done | |].
  - simpl. apply split_sep_no_sep. by inversion Hall.
  - rewrite join_sep_cons, split_sep_app.
    inversion Hall; subst. rewrite IH by done.
    by rewrite split_sep_no_sep.
Qed.

Lemma proper_no_sep c : proper c → has_sep c = false.
Proof. by intros []. Qed.

Lemma norm_step_proper abs acc c :
  proper c → norm_step abs acc c = c :: acc.
Proof.
  intros (_ & H1 & H2 & H3). unfold norm_step.
  rewrite !bool_decide_eq_false_2 by done. reflexivity.
Qed.

Lemma norm_fold_proper l : ∀ acc,
  Forall proper l → fold_left (norm_step true) l acc = rev l ++ acc.
Proof.
  induction l as [| c l IH]; intros acc Hall; [done |].
  inversion Hall; subst. simpl. rewrite norm_step_proper by done.
  rewrite IH by done. by rewrite <- app_assoc.
Qed.

Lemma norm_fold_keeps_proper l : ∀ acc,
  Forall (λ c, has_sep c = false) l → Forall proper acc →
  Forall proper (fold_left (norm_step true) l acc).
Proof.
  induction l as [| c l IH]; intros acc Hl Hacc; [done |].
  inversion Hl; subst. simpl. apply IH; [done |].
  unfold norm_step.
  destruct (bool_decide (c = "")) eqn:E1; [done |].
  destruct (bool_decide (c = ".")) eqn:E2; [done |].
  destruct (bool_decide (c = "..")) eqn:E3; simpl.
  - destruct acc as [| x acc']; [done |].
    inversion Hacc as [| ? ? Hx Hacc']; subst.
    rewrite bool_decide_eq_false_2 by (destruct Hx as (_ & _ & _ & ?); done).
    done.
  - constructor; [| done].
    apply bool_decide_eq_false in E1, E2, E3. by repeat split.
Qed.

Lemma initial_slashes_abs p :
  isabs p = true → initial_slashes p = 1 ∨ initial_slashes p = 2.
Proof.
  destruct p as [| a [| b [| c r]]]; simpl; [done | | |];
    intros Ha; rewrite Ha; repeat case_bool_decide; auto.
Qed.

Lemma proper_head_not_sep c r : proper (String c r) → c ≠ sep.
Proof.
  intros (Hs & _). simpl in Hs. apply orb_false_elim in Hs as [Hs _].
  by apply bool_decide_eq_false in Hs.
Qed.

Lemma join_sep_proper_head comps :
  Forall proper comps → comps ≠ [] →
  ∃ c r, join_sep comps = String c r ∧ c ≠ sep.
Proof.
  destruct comps as [| x l]; [done |]. intros Hall _.
  inversion Hall as [| ? ? Hx _]; subst.
  destruct x as [| c r]; [by destruct Hx as (_ & ? & _) |].
  exists c. destruct l as [| y l].
  - exists r. split; [done |]. by eapply proper_head_not_sep.
  - exists (r +:+ String sep (join_sep (y :: l))). split; [done |].
    by eapply proper_head_not_sep.
Qed.

Lemma initial_slashes_nf n comps :
  n = 1 ∨ n = 2 → Forall proper comps → initial_slashes (nf n comps) = n.
Proof.
  intros Hn Hall. unfold nf.
  destruct comps as [| x l].
  - destruct Hn as [-> | ->]; reflexivity.
  - destruct (join_sep_proper_head (x :: l) Hall) as (c & r & -> & Hc);
      [done |].
    destruct Hn as [-> | ->]; simpl; sapp.
    + destruct r; simpl; repeat case_bool_decide; done.
    + simpl; repeat case_bool_decide; done.
Qed.

Lemma split_sep_nf n comps :
  Forall proper comps →
  split_sep (nf n comps)
  = replicate n "" ++ (if decide (comps = []) then [""] else comps).
Proof.
  intros Hall. unfold nf. induction n as [| n IH]; simpl; sapp.
  - case_decide as Hc; [by subst |].
    apply split_join_sep; [done |].
    eapply Forall_impl; [done |]. by intros c [].
  - simpl. by rewrite IH.
Qed.

Lemma norm_fold_skip_empty abs n l acc :
  fold_left (norm_step abs) (replicate n "" ++ l) acc
  = fold_left (norm_step abs) l acc.
Proof.
  induction n as [| n IH]; [done |]. cbn [replicate app fold_left].
  by assert (norm_step abs acc "" = acc) as -> by reflexivity.
Qed.

Lemma nf_not_empty n comps : n = 1 ∨ n = 2 → nf n comps ≠ "".
Proof. intros [-> | ->]; unfold nf; simpl; sapp; done. Qed.

(** A normal path is a fixed point of [normpath]. *)
Lemma normpath_normal p : normal p → normpath p = p.
Proof.
  intros (n & comps & Hn & Hall & ->). unfold normpath.
  rewrite bool_decide_eq_false_2 by by apply nf_not_empty.
  rewrite initial_slashes_nf by done.
  rewrite split_sep_nf, norm_fold_skip_empty by done.
  assert (negb (bool_decide (n = 0)) = true) as ->
    by (destruct Hn as [-> | ->]; done).
  cbv zeta.
  assert (rev (fold_left (norm_step true)
                 (if decide (comps = []) then [""] else comps) []) = comps)
    as ->.
  { case_decide as Hc; [by subst |].
    rewrite norm_fold_proper by done. by rewrite app_nil_r, rev_involutive. }
  fold (nf n comps).
  by rewrite bool_decide_eq_false_2 by by apply nf_not_empty.
Qed.

(** [normpath] of an absolute path is normal. *)
Lemma normpath_abs_normal p : isabs p = true → normal (normpath p).
Proof.
  intros Habs. unfold normpath.
  rewrite bool_decide_eq_false_2 by (by destruct p).
  destruct (initial_slashes_abs p Habs) as [Hn | Hn]; rewrite Hn; cbv zeta;
    cbn [negb bool_decide decide_rel].
  all: match goal with
       | |- context [slashes ?n +:+ join_sep ?c] =>
           fold (nf n c);
           rewrite bool_decide_eq_false_2 by (apply nf_not_empty; auto);
           exists n, c; split; [auto |]; split; [| done]
       end.
  all: apply Forall_rev, norm_fold_keeps_proper;
    [apply split_sep_has_no_sep | constructor].
Qed.

Lemma normal_isabs a : normal a → isabs a = true.
Proof.
  intros (n & comps & Hn & _ & ->). unfold nf.
  destruct Hn as [-> | ->]; reflexivity.
Qed.

Lemma join_abs a b : isabs b = true → join a b = b.
Proof. intros Hb. unfold join. by rewrite Hb. Qed.

Lemma isabs_append a b : isabs a = true → isabs (a +:+ b) = true.
Proof. by destruct a. Qed.

Lemma isabs_join d p : isabs d = true → isabs (join d p) = true.
Proof.
  intros Hd. unfold join. destruct (isabs p) eqn:Hp; [done |].
  destruct (_ || _); by apply isabs_append.
Qed.

Lemma resolve_from_normal d p : isabs d = true → normal (resolve_from d p).
Proof. intros Hd. apply normpath_abs_normal. by apply isabs_join. Qed.

Lemma resolve_from_id d a : normal a → resolve_from d a = a.
Proof.
  intros Ha. unfold resolve_from.
  rewrite join_abs by by apply normal_isabs. by apply normpath_normal.
Qed.

Lemma resolve_normal w p : isabs (cwd w) = true → normal (resolve w p).
Proof. apply resolve_from_normal. Qed.

Lemma resolve_id w a : normal a → resolve w a = a.
Proof. apply resolve_from_id. Qed.

(** What [os.path.abspath] computes is the resolved path. *)
Lemma abspath_resolve d p :
  (if isabs p then normpath p else normpath (join d p)) = resolve_from d p.
Proof.
  unfold resolve_from. destruct (isabs p) eqn:Hp; [| done].
  by rewrite join_abs.
Qed.

(** ** Calls that only read *)

(** From [w] to [w'] nothing but the clock has moved. *)
Definition only_clock (w w' : World) : Prop :=
  fs w' = fs w ∧ cwd w' = cwd w ∧ fault w' = fault w
  ∧ tmp_names w' = tmp_names w ∧ stdin w' = stdin w ∧ hist w' = hist w
  ∧ clock w ≤ clock w'.

Lemma only_clock_refl w : only_clock w w.
Proof. by repeat split. Qed.

Lemma only_clock_tick w n w' :
  only_clock (set_clock (S n) w) w' → clock w ≤ n → only_clock w w'.
Proof.
  intros (? & ? & ? & ? & ? & ? & Hc) Hn. repeat split; try done.
  simpl in Hc. lia.
Qed.

Lemma only_clock_trans w1 w2 w3 :
  only_clock w1 w2 → only_clock w2 w3 → only_clock w1 w3.
Proof.
  intros (? & ? & ? & ? & ? & ? & ?) (? & ? & ? & ? & ? & ? & ?).
  repeat split; try congruence. lia.
Qed.

(** Solve [only_clock w w'] from the like facts in the context. *)
Ltac only_clock_solve :=
  unfold only_clock in *;
  cbn [fs cwd fault tmp_names stdin hist clock set_clock] in *;
  intuition (try congruence; try lia).

(** Use what is known of a call ([lemma]), then go on with its outcome. *)
Ltac wp_call lemma :=
  eapply wp_mono; [apply lemma |];
  let r := fresh "r" in
  let w' := fresh "w'" in
  let Hw' := fresh "Hw'" in
  intros r w' Hw'; destruct r; wp_simpl.

Lemma is_binary_file_only_clock w p :
  wp (is_binary_file p) (λ _ w', only_clock w w') w.
Proof. unfold is_binary_file. wp_steps; only_clock_solve. Qed.


Lemma wp_conj {A} (m : M A) (Q1 Q2 : res A → World → Prop) w :
  wp m Q1 w → wp m Q2 w → wp m (λ r w', Q1 r w' ∧ Q2 r w') w.
Proof. by split. Qed.

(** A call whose outcome is known, and of whose world [Q'] is known. *)
Lemma wp_result {A} (m : M A) (Q' Q : res A → World → Prop) x w :
  (m w).1 = x → wp m Q' w → (∀ w', Q' x w' → Q x w') → wp m Q w.
Proof. unfold wp. intros E H1 H2. rewrite E in *. auto. Qed.

Lemma startswith_take pre n b :
  length pre ≤ n → startswith pre (take n b) = startswith pre b.
Proof.
  revert n b. induction pre as [| x pre IH]; intros n b Hn; [done |].
  destruct n as [| n]; [simpl in Hn; lia |].
  destruct b as [| y b]; [done |]. simpl. unfold startswith; fold startswith.
  rewrite IH by (simpl in Hn; lia). done.
Qed.

Lemma startswith_sample pre b :
  length pre ≤ 3 → startswith pre (detection_sample b) = startswith pre b.
Proof.
  intros Hpre. unfold detection_sample.
  destruct (decide (length b ≤ 3)) as [Hb | Hb].
  - rewrite take_ge; [done |]. unfold Config.DETECTION_SAMPLE_SIZE. lia.
  - apply startswith_take. unfold Config.DETECTION_SAMPLE_SIZE. lia.
Qed.

Section DetectorRuns.
Context `{Collaborators}.

Lemma detect_encoding_only_clock w p :
  wp (detect_encoding p) (λ _ w', only_clock w w') w.
Proof.
  unfold detect_encoding, chardet_detect_call.
  wp_steps; try only_clock_solve.
  all: wp_call is_binary_file_only_clock; wp_steps; only_clock_solve.
Qed.

End DetectorRuns.

(** ** The orchestrator *)

Lemma outcome_one_outcome r : outcome r → one_outcome r.
Proof.
  intros []; unfold one_outcome; simpl; intuition congruence.
Qed.

(** Step through the program, running blindly the calls without a rule. *)
Ltac wp_blind := repeat first [wp_rule | wp_any].

Section OrchestratorRuns.
Context `{Collaborators}.

(** The orchestrator returns, and returns one of the five results. *)
Lemma convert_to_sjis_returns w p :
  wp (convert_to_sjis p) (λ r _, ∃ x, r = Ok x ∧ outcome x) w.
Proof.
  unfold convert_to_sjis, convert_detected, orchestrator_handlers.
  wp_blind.
  all: repeat match goal with
         | E : bool_decide (_ = _) = true |- _ =>
             apply bool_decide_eq_true in E
         end; subst.
  all: eexists; split; [reflexivity |]; cbn; constructor.
Qed.

(** When the destination is taken and the answer is no, the result is
    flagged skipped and success stays false. *)
Lemma convert_detected_declined w abs_filepath encoding result
    incompatible w1 new_filepath new_filename w2 :
  check_sjis_compatibility_stream abs_filepath encoding w
  = (Ok incompatible, w1) →
  generate_output_filename abs_filepath incompatible w1
  = (Ok (new_filepath, new_filename), w2) →
  fs w2 !! resolve w2 new_filepath ≠ None →
  (confirm_loop (stdin w2)).1 = false →
  (convert_detected abs_filepath encoding result w).1
  = Ok (set_skipped true
          (set_message msg_declined
             (set_has_incompatible_chars incompatible result))).
Proof.
  intros Hscan Hname Htaken Hno. apply wp_fst_eq. unfold convert_detected.
  assert (bool_decide (is_Some (fs w2 !! resolve w2 new_filepath)) = true)
    as Hex by (by apply bool_decide_eq_true_2, not_eq_None_Some).
  wp_steps. cbn [has_incompatible_chars set_has_incompatible_chars].
  wp_steps. apply wp_run. unfold confirm_overwrite.
  destruct (confirm_loop (stdin w2)) as [answer rest]. simpl in Hno.
  subst answer. wp_simpl. wp_steps. reflexivity.
Qed.

End OrchestratorRuns.

(** C1, as the code has it: the orchestrator always returns a result, one
    of five shapes, and of the three cases (success and converted, success
    and skipped, failure) exactly one holds.  The skips of an empty file and
    of a file already in Shift_JIS have success true; the skip of a declined
    overwrite has success false, and it is the only result with skipped
    true and success false. *)
Theorem convert_to_sjis_outcome `{Collaborators} (w : World) (p : string) :
  ∃ r, (convert_to_sjis p w).1 = Ok r
       ∧ outcome r
       ∧ one_outcome r
       ∧ (skipped r = true →
          (success r = true ∧ converted r = false
           ∧ (message r = msg_skip_empty ∨ message r = msg_skip_sjis))
          ∨ (success r = false ∧ converted r = false
             ∧ message r = msg_declined)).
Proof.
  destruct (convert_to_sjis_returns w p) as (r & Hr & Hout).
  exists r. split; [done |]. split; [done |].
  split; [by apply outcome_one_outcome |].
  destruct Hout; simpl; intros; auto; discriminate.
Qed.

(** C1 as stated fails: a declined overwrite is flagged skipped, and its
    success is false. *)
Lemma declined_overwrite_not_success :
  ∃ r, (@convert_to_sjis (Sample.collaborators (Sample.says "ascii" 1))
          "hello.txt" Sample.world_declined).1 = Ok r
       ∧ skipped r = true ∧ success r = false
       ∧ message r = msg_declined.
Proof. eexists. vm_compute. repeat split. Qed.

(** ** The orchestrator on a file that detection turns away *)

(** [abspath] of a quiet world gives the resolved path and moves the clock
    by one call at most. *)
Lemma wp_abspath w p Q :
  quiet w 1 →
  (∀ w1, only_clock w w1 → clock w1 ≤ S (clock w) → Q (Ok (resolve w p)) w1) →
  wp (os_path_abspath p) Q w.
Proof.
  intros Hq HQ. pose proof (quiet_now w 0 SysGetcwd Hq) as F.
  unfold os_path_abspath. pose proof (abspath_resolve (cwd w) p) as E.
  unfold resolve in HQ. rewrite <- E in HQ.
  destruct (isabs p); wp_steps.
  - apply HQ; [apply only_clock_refl | lia].
  - apply HQ; [only_clock_solve | simpl; lia].
Qed.

Lemma quiet_after w w1 j k :
  only_clock w w1 → clock w1 ≤ clock w + j → quiet w (j + k) → quiet w1 k.
Proof.
  intros (_ & _ & Hf & _ & _ & _ & Hc) Hj Hq i s Hi. rewrite Hf.
  replace (i + clock w1) with ((i + (clock w1 - clock w)) + clock w) by lia.
  apply Hq. lia.
Qed.

Lemma regular_file_after w w1 p b :
  isabs (cwd w) = true → only_clock w w1 → regular_file w p b →
  regular_file w1 (resolve w p) b.
Proof.
  intros Habs (Hfs & Hcwd & _) (Hf & Hne & Hsz). split; [| done].
  rewrite resolve_id by by apply resolve_normal. by rewrite Hfs.
Qed.

Section Rejections.
Context `{Collaborators}.

(** A readable file with a null byte in its first 1024 bytes and no
    byte-order mark is turned away as binary. *)
Lemma detect_encoding_binary w p b :
  regular_file w p b → quiet w 5 →
  contains x00 (take 1024 b) = true →
  startswith bom_utf16le b = false →
  startswith bom_utf16be b = false →
  startswith bom_utf8 b = false →
  (detect_encoding p w).1 = Ok (None, Some msg_binary).
Proof.
  intros (Hfs & Hne & Hsize) Hq Hnull H16le H16be Hbom.
  quiet_facts Hq.
  assert ((Config.MAX_FILE_SIZE <? N.of_nat (length b))%N = false) as Hmax
    by (apply N.ltb_ge; exact Hsize).
  assert ((N.of_nat (length b) =? 0)%N = false) as Hzero.
  { apply N.eqb_neq. destruct b; [done | simpl; lia]. }
  pose proof (bool_decide_eq_false_2 _ (detection_sample_nonempty b Hne))
    as Hraw.
  assert (bool_decide (take 1024 b = []) = false) as Hchunk.
  { apply bool_decide_eq_false_2. destruct b; [done | by simpl]. }
  assert (startswith bom_utf16le (take 1024 b)
          || startswith bom_utf16be (take 1024 b) = false) as Hc16.
  { rewrite !startswith_take by (simpl; lia). by rewrite H16le, H16be. }
  rewrite <- (startswith_sample bom_utf16le b) in H16le by (simpl; lia).
  rewrite <- (startswith_sample bom_utf16be b) in H16be by (simpl; lia).
  rewrite <- (startswith_sample bom_utf8 b) in Hbom by (simpl; lia).
  unfold detection_sample in *.
  apply wp_fst_eq.
  unfold detect_encoding, chardet_detect_call, is_binary_file.
  wp_steps. reflexivity.
Qed.

(** Detection says [reason]; the orchestrator reports it and leaves the
    file system as it was. *)
Lemma convert_to_sjis_rejects w p b reason :
  isabs (cwd w) = true →
  fs w !! resolve w p = Some (File b) →
  quiet w 1 →
  reason ≠ "" → reason ≠ msg_empty →
  (∀ w1, only_clock w w1 → clock w1 ≤ S (clock w) →
         (detect_encoding (resolve w p) w1).1 = Ok (None, Some reason)) →
  (convert_to_sjis p w).1 = Ok (mk_result false reason "" false false false)
  ∧ fs (convert_to_sjis p w).2 = fs w.
Proof.
  intros Habs Hfs Hq Hr1 Hr2 Hdet.
  enough (wp (convert_to_sjis p)
            (λ r w', r = Ok (mk_result false reason "" false false false)
                     ∧ fs w' = fs w) w) as Hwp by exact Hwp.
  unfold convert_to_sjis.
  assert (bool_decide (is_Some (fs w !! resolve w p)) = true) as Hex
    by (apply bool_decide_eq_true_2; eauto).
  wp_steps. apply wp_abspath; [done |]. intros w1 Hw1 Hc1. wp_simpl.
  assert (fs w1 !! resolve w1 (resolve w p) = Some (File b)) as Hfs1.
  { destruct Hw1 as (E1 & E2 & _).
    rewrite resolve_id by by apply resolve_normal. by rewrite E1. }
  assert (truthy (Some reason) = true) as Ht
    by (unfold truthy; by rewrite bool_decide_eq_false_2).
  assert (bool_decide (Some reason = Some msg_empty) = false) as Hm
    by (apply bool_decide_eq_false_2; congruence).
  wp_steps.
  eapply wp_result;
    [exact (Hdet w1 Hw1 Hc1) | apply detect_encoding_only_clock |].
  intros w2 Hw2. wp_simpl. wp_steps.
  split; [reflexivity | only_clock_solve].
Qed.

End Rejections.

(** C8, as the code has it: a file that is not empty and within the size
    limit, read without faults, with a null byte in its first 1024 bytes and
    no byte-order mark at its start (UTF-16 or UTF-8), is turned away by
    detection with the binary-file reason; when its path is written plainly
    (no [.], [..], doubled or trailing slash, so that the existence test
    sees the file), the orchestrator reports that reason as a failure and
    the file system is left as it was. *)
Theorem binary_file_rejected `{Collaborators} (w : World) (p : string)
    (b : bytes) :
  isabs (cwd w) = true →
  regular_file w p b →
  quiet w 6 →
  contains x00 (take 1024 b) = true →
  startswith bom_utf16le b = false →
  startswith bom_utf16be b = false →
  startswith bom_utf8 b = false →
  (detect_encoding p w).1 = Ok (None, Some msg_binary)
  ∧ (plain p = true →
     (convert_to_sjis p w).1
     = Ok (mk_result false msg_binary "" false false false)
     ∧ fs (convert_to_sjis p w).2 = fs w).
Proof.
  intros Habs Hfile Hq Hnull H16le H16be Hbom. split.
  - apply (detect_encoding_binary w p b); try done.
    apply (quiet_weaken w 6); [done | lia].
  - intros _. apply (convert_to_sjis_rejects w p b); try done.
    + by destruct Hfile.
    + apply (quiet_weaken w 6); [done | lia].
    + intros w1 Hw1 Hc1.
      apply (detect_encoding_binary w1 (resolve w p) b); try done.
      * by apply (regular_file_after w).
      * apply (quiet_after w w1 1 5); [done | lia | done].
Qed.

Lemma binary_file_rejected_witness :
  (@convert_to_sjis (Sample.collaborators (Sample.says "ascii" 1))
     "data.bin" Sample.world0).1
  = Ok (mk_result false msg_binary "" false false false).
Proof.
  refine (proj1 (proj2
    (@binary_file_rejected (Sample.collaborators (Sample.says "ascii" 1))
       Sample.world0 "data.bin" [x68; x00; x65] _ _ _ _ _ _ _) eq_refl)).
  - reflexivity.
  - split; [| split]; vm_compute; [reflexivity | discriminate | discriminate].
  - intros i s Hi. reflexivity.
  - vm_compute. reflexivity.
  - reflexivity.
  - reflexivity.
  - reflexivity.
Defined.

(** C8 as stated fails: a file that starts with the UTF-8 byte-order mark
    is never put to the binary check; with a null byte after the mark it is
    detected as UTF-8 with BOM, and converted. *)
Lemma utf8_bom_file_with_null_not_rejected :
  let bom_file := [xef; xbb; xbf; x00] in
  let run :=
    @convert_to_sjis (Sample.collaborators (Sample.says "ascii" 1))
      "bom.txt" Sample.world0 in
  fs Sample.world0 !! "/home/user/bom.txt" = Some (File bom_file)
  ∧ contains x00 (take 1024 bom_file) = true
  ∧ startswith bom_utf16le bom_file = false
  ∧ startswith bom_utf16be bom_file = false
  ∧ (@detect_encoding (Sample.collaborators (Sample.says "ascii" 1))
       "bom.txt" Sample.world0).1
    = Ok (Some Config.ENCODING_UTF8_SIG_BOM, None)
  ∧ fs Sample.world0 !! "/home/user/bom_sjis.txt" = None
  ∧ fs run.2 !! "/home/user/bom_sjis.txt" = Some (File [x00]).
Proof. vm_compute. repeat split. Qed.

(** ** The pair the detector returns *)

Section EmptyFile.
Context `{Collaborators}.

Lemma detect_encoding_empty w p :
  fs w !! resolve w p = Some (File []) → quiet w 1 →
  (detect_encoding p w).1 = Ok (None, Some msg_empty).
Proof.
  intros Hfs Hq. quiet_facts Hq. apply wp_fst_eq.
  assert ((Config.MAX_FILE_SIZE <? N.of_nat (length (@nil byte)))%N = false)
    as Hmax by reflexivity.
  assert ((N.of_nat (length (@nil byte)) =? 0)%N = true) as Hzero
    by reflexivity.
  unfold detect_encoding. wp_steps. reflexivity.
Qed.

Lemma convert_to_sjis_empty w p :
  isabs (cwd w) = true →
  fs w !! resolve w p = Some (File []) →
  quiet w 2 →
  (convert_to_sjis p w).1
  = Ok (mk_result true msg_skip_empty "N/A" false false true).
Proof.
  intros Habs Hfs Hq. apply wp_fst_eq. unfold convert_to_sjis.
  assert (bool_decide (is_Some (fs w !! resolve w p)) = true) as Hex
    by (apply bool_decide_eq_true_2; eauto).
  wp_steps. apply wp_abspath; [apply (quiet_weaken w 2); [done | lia] |].
  intros w1 Hw1 Hc1. wp_simpl.
  assert (fs w1 !! resolve w1 (resolve w p) = Some (File [])) as Hfs1.
  { destruct Hw1 as (E1 & E2 & _).
    rewrite resolve_id by by apply resolve_normal. by rewrite E1. }
  assert (truthy (Some msg_empty) = true) as Ht by reflexivity.
  assert (bool_decide (Some msg_empty = Some msg_empty) = true) as Hm
    by (by apply bool_decide_eq_true_2).
  wp_steps.
  eapply wp_result;
    [ apply detect_encoding_empty;
      [done | apply (quiet_after w w1 1 1); [done | lia | done]]
    | apply detect_encoding_only_clock |].
  intros w2 Hw2. wp_simpl. wp_steps. reflexivity.
Qed.

End EmptyFile.

(** C5, as the code has it: whenever the detector returns, exactly one side
    of the pair is there, the empty file included: for a file of zero length
    the pair is no encoding and the reason "空ファイルです".  The
    orchestrator takes that reason for a skip: for a file of zero length
    whose path is written plainly (no [.], [..], doubled or trailing slash,
    so that the existence test sees the file), the result is flagged
    skipped, with success, and its original encoding is "N/A". *)
Theorem detect_encoding_pair `{Collaborators} (w : World) (p : string) :
  (∀ x, (detect_encoding p w).1 = Ok x → exactly_one x)
  ∧ (fs w !! resolve w p = Some (File []) → quiet w 1 →
     (detect_encoding p w).1 = Ok (None, Some "空ファイルです"))
  ∧ (plain p = true →
     isabs (cwd w) = true → fs w !! resolve w p = Some (File []) →
     quiet w 2 →
     ∃ r, (convert_to_sjis p w).1 = Ok r
          ∧ skipped r = true ∧ success r = true ∧ converted r = false
          ∧ original_encoding r = "N/A").
Proof.
  split; [| split].
  - apply (detect_encoding_exactly_one w p).
  - apply detect_encoding_empty.
  - intros _ Habs Hfs Hq. eexists. split.
    + by apply convert_to_sjis_empty.
    + done.
Qed.

Lemma detect_encoding_pair_witness :
  (@detect_encoding (Sample.collaborators None) "empty.txt" Sample.world0).1
  = Ok (None, Some "空ファイルです")
  ∧ ∃ r, (@convert_to_sjis (Sample.collaborators None) "empty.txt"
            Sample.world0).1 = Ok r
         ∧ skipped r = true ∧ success r = true ∧ converted r = false
         ∧ original_encoding r = "N/A".
Proof.
  pose proof (@detect_encoding_pair (Sample.collaborators None)
                Sample.world0 "empty.txt") as (_ & H1 & H2).
  assert (quiet Sample.world0 2) as Hq by (intros i s Hi; reflexivity).
  split.
  - apply H1; [reflexivity | intros i s Hi; reflexivity].
  - apply H2; [reflexivity | reflexivity | reflexivity | exact Hq].
Defined.

(** C5 as stated fails: for a file of zero length the detector does
    return an error reason, with no encoding beside it. *)
Lemma empty_file_has_error_reason :
  fs Sample.world0 !! "/home/user/empty.txt" = Some (File [])
  ∧ (@detect_encoding (Sample.collaborators None) "empty.txt"
       Sample.world0).1
    = Ok (None, Some "空ファイルです")
  ∧ ¬ ∃ sentinel,
        (@detect_encoding (Sample.collaborators None) "empty.txt"
           Sample.world0).1
        = Ok (sentinel, None).
Proof.
  split; [reflexivity |]. split; [reflexivity |].
  intros (sentinel & E). vm_compute in E. discriminate E.
Qed.

(** ** Normal paths: joining and splitting *)

Lemma has_sep_append a b : has_sep (a +:+ b) = has_sep a || has_sep b.
Proof.
  induction a as [| c a IH]; sapp; simpl; [done |].
  by rewrite IH, orb_assoc.
Qed.

Lemma ends_with_sep_no_sep c : has_sep c = false → ends_with_sep c = false.
Proof.
  induction c as [| a c IH]; [done |]. simpl.
  intros [Ha Hc]%orb_false_elim. destruct c; [done |]. by apply IH.
Qed.

Lemma ends_with_sep_append a b :
  b ≠ "" → ends_with_sep (a +:+ b) = ends_with_sep b.
Proof.
  intros Hb. induction a as [| c a IH]; sapp; [done |].
  cbn [ends_with_sep]. destruct (a +:+ b) eqn:E; [| exact IH].
  destruct a; [| discriminate E]. by rewrite append_nil_l in E.
Qed.

Lemma join_sep_snoc comps c :
  comps ≠ [] → join_sep (comps ++ [c]) = join_sep comps +:+ String sep c.
Proof.
  induction comps as [| x [| y l] IH]; intros Hne; [done | done |].
  change ((x :: y :: l) ++ [c]) with (x :: (y :: l) ++ [c]).
  cbn [app]. rewrite !join_sep_cons.
  change (y :: l ++ [c]) with ((y :: l) ++ [c]). rewrite IH by done.
  by rewrite append_assoc.
Qed.

Lemma proper_not_empty c : proper c → c ≠ "".
Proof. by intros (_ & ? & _). Qed.

Lemma join_sep_not_empty comps :
  Forall proper comps → comps ≠ [] → join_sep comps ≠ "".
Proof.
  intros Hall Hne.
  destruct (join_sep_proper_head comps Hall Hne) as (c & r & -> & _). done.
Qed.

Lemma ends_with_sep_join_sep comps :
  Forall proper comps → comps ≠ [] → ends_with_sep (join_sep comps) = false.
Proof.
  intros Hall Hne.
  destruct (exists_last Hne) as (l & c & ->).
  apply Forall_app in Hall as [Hl Hc]. inversion Hc as [| ? ? Hp _]; subst.
  destruct l as [| x l'].
  - simpl. apply ends_with_sep_no_sep. by destruct Hp.
  - rewrite join_sep_snoc by done.
    rewrite ends_with_sep_append by done. cbn [ends_with_sep].
    destruct c as [| a c]; [by destruct Hp as (_ & ? & _) |].
    change (ends_with_sep (String a c) = false).
    apply ends_with_sep_no_sep. by destruct Hp.
Qed.

Lemma slashes_ends_with_sep n : n ≠ 0 → ends_with_sep (slashes n) = true.
Proof.
  induction n as [| [| n] IH]; intros Hn; [done | done |].
  change (slashes (S (S n))) with (String sep (slashes (S n))).
  cbn [ends_with_sep]. change (slashes (S n)) with (String sep (slashes n)).
  change (String sep (slashes n)) with (slashes (S n)). by apply IH.
Qed.

Lemma isabs_proper c : proper c → isabs c = false.
Proof.
  intros Hp. destruct c as [| a c]; [done |]. simpl.
  apply bool_decide_eq_false_2. by eapply proper_head_not_sep.
Qed.

(** Joining a name to a normal directory gives the normal path with one
    more component. *)
Lemma join_nf n comps c :
  n = 1 ∨ n = 2 → Forall proper comps → proper c →
  join (nf n comps) c = nf n (comps ++ [c]).
Proof.
  intros Hn Hall Hc. unfold join. rewrite isabs_proper by done.
  rewrite bool_decide_eq_false_2 by by apply nf_not_empty.
  cbn [orb]. unfold nf. destruct comps as [| x l].
  - cbn [join_sep app]. rewrite append_nil_r.
    rewrite slashes_ends_with_sep by (destruct Hn; lia). done.
  - rewrite ends_with_sep_append by by apply join_sep_not_empty.
    rewrite ends_with_sep_join_sep by done.
    rewrite join_sep_snoc by done. by rewrite !append_assoc.
Qed.

Lemma basename_nf_snoc n comps c :
  Forall proper (comps ++ [c]) → basename (nf n (comps ++ [c])) = c.
Proof.
  intros Hall. unfold basename. rewrite split_sep_nf by done.
  rewrite decide_False by (by destruct comps).
  rewrite app_assoc. apply last_last.
Qed.


Lemma rstrip_sep_snoc x : rstrip_sep (x +:+ "/") = rstrip_sep x.
Proof.
  induction x as [| a x IH]; sapp; [done |].
  cbn [rstrip_sep]. by rewrite IH.
Qed.

Lemma rstrip_sep_id x : ends_with_sep x = false → rstrip_sep x = x.
Proof.
  induction x as [| a x IH]; [done |]. intros He. cbn [rstrip_sep].
  destruct x as [| b x'].
  - simpl in *. by rewrite He.
  - rewrite IH by exact He. done.
Qed.

Lemma rstrip_sep_slashes n : rstrip_sep (slashes n) = "".
Proof.
  induction n as [| n IH]; [done |]. cbn [slashes rstrip_sep].
  by rewrite IH.
Qed.

Lemma join_sep_replicate_empty n comps :
  comps ≠ [] → join_sep (replicate n "" ++ comps) = nf n comps.
Proof.
  intros Hne. induction n as [| n IH]; [done |].
  cbn [replicate app]. destruct (replicate n "" ++ comps) eqn:E.
  - by destruct n, comps.
  - rewrite join_sep_cons, IH. reflexivity.
Qed.

Lemma join_sep_all_empty n : join_sep (replicate (S n) "") = slashes n.
Proof.
  induction n as [| n IH]; [done |].
  change (replicate (S (S n)) "") with ("" :: replicate (S n) "").
  cbn [replicate]. rewrite join_sep_cons.
  change ("" :: replicate n "") with (replicate (S n) ""). by rewrite IH.
Qed.

Lemma dirname_nf_snoc n comps c :
  n = 1 ∨ n = 2 → Forall proper (comps ++ [c]) →
  dirname (nf n (comps ++ [c])) = nf n comps.
Proof.
  intros Hn Hall. unfold dirname, head_of. rewrite split_sep_nf by done.
  rewrite decide_False by (by destruct comps).
  rewrite app_assoc, removelast_last.
  apply Forall_app in Hall as [Hall _].
  destruct comps as [| x l].
  - destruct Hn as [-> | ->]; reflexivity.
  - assert (match replicate n "" ++ x :: l with
            | [] => ""
            | s :: l0 => join_sep (s :: l0) +:+ "/"
            end = nf n (x :: l) +:+ "/") as ->.
    { destruct Hn as [-> | ->]; reflexivity. }
    rewrite rstrip_sep_snoc.
    assert (ends_with_sep (nf n (x :: l)) = false) as He.
    { unfold nf. rewrite ends_with_sep_append
        by by apply join_sep_not_empty.
      by apply ends_with_sep_join_sep. }
    rewrite rstrip_sep_id by done.
    assert (nf n (x :: l) ≠ "") as Hnf by by apply nf_not_empty.
    rewrite !bool_decide_eq_false_2; try done.
    by destruct (nf n (x :: l)).
Qed.

Lemma dirname_nf_nil n : n = 1 ∨ n = 2 → dirname (nf n []) = nf n [].
Proof. intros [-> | ->]; reflexivity. Qed.

(** The directory of a normal path is normal. *)
Lemma dirname_normal a : normal a → normal (dirname a).
Proof.
  intros (n & comps & Hn & Hall & ->).
  destruct (decide (comps = [])) as [-> | Hne].
  - rewrite dirname_nf_nil by done. by exists n, [].
  - destruct (exists_last Hne) as (l & c & ->).
    rewrite dirname_nf_snoc by done. exists n, l.
    apply Forall_app in Hall as [Hl _]. done.
Qed.

(** ** The output namer *)

Lemma rsplit_dot_app s a e : rsplit_dot s = Some (a, e) → s = a +:+ e.
Proof.
  revert a e. induction s as [| c s IH]; intros a e; [done |].
  cbn [rsplit_dot]. destruct (rsplit_dot s) as [[a' e'] |].
  - intros [= <- <-]. sapp. by rewrite <- (IH a' e').
  - case_bool_decide; [| done]. by intros [= <- <-].
Qed.

Lemma basename_no_sep f : has_sep f = false → basename f = f.
Proof. intros Hf. unfold basename. by rewrite split_sep_no_sep. Qed.

Lemma head_of_no_sep f : has_sep f = false → head_of f = "".
Proof. intros Hf. unfold head_of. by rewrite split_sep_no_sep. Qed.

Lemma has_sep_basename p : has_sep (basename p) = false.
Proof.
  unfold basename. pose proof (split_sep_has_no_sep p) as Hall.
  pose proof (split_sep_nonempty p) as Hne.
  destruct (exists_last Hne) as (l & c & E). rewrite E in *.
  rewrite last_last. apply Forall_app in Hall as [_ Hc]. by inversion Hc.
Qed.

Lemma splitext_no_sep f name ext :
  has_sep f = false → splitext f = (name, ext) → f = name +:+ ext.
Proof.
  intros Hf. unfold splitext.
  rewrite basename_no_sep, head_of_no_sep by done.
  destruct (rsplit_dot f) as [[a e] |] eqn:E.
  - destruct (all_dots a).
    + intros [= <- <-]. by rewrite append_nil_r.
    + intros [= <- <-]. sapp. by apply rsplit_dot_app.
  - intros [= <- <-]. by rewrite append_nil_r.
Qed.

(** The new name is a proper component, and not the old name. *)
Lemma new_filename_proper f name ext (flag : bool) :
  has_sep f = false → splitext f = (name, ext) →
  let new_filename :=
    if flag then name +:+ Config.SJISX_SUFFIX +:+ ext
    else name +:+ Config.SJIS_SUFFIX +:+ ext in
  proper new_filename ∧ new_filename ≠ f.
Proof.
  intros Hf Hsplit new_filename.
  pose proof (splitext_no_sep f name ext Hf Hsplit) as E.
  assert (has_sep name = false ∧ has_sep ext = false) as [Hn He].
  { rewrite E, has_sep_append in Hf. by apply orb_false_elim in Hf. }
  assert (String.length new_filename
          = String.length f + (if flag then 6 else 5)) as Hlen.
  { unfold new_filename. rewrite E.
    destruct flag; rewrite !length_append; simpl; lia. }
  split; [split; [| split; [| split]] |].
  - unfold new_filename. destruct flag; rewrite !has_sep_append, Hn, He; done.
  - intros E'. rewrite E' in Hlen. destruct flag; simpl in Hlen; lia.
  - intros E'. rewrite E' in Hlen. destruct flag; simpl in Hlen; lia.
  - intros E'. rewrite E' in Hlen. destruct flag; simpl in Hlen; lia.
  - intros E'. rewrite E' in Hlen. destruct flag; lia.
Qed.

Lemma ends_with_sep_split d :
  ends_with_sep d = true → ∃ d', d = d' +:+ "/".
Proof.
  induction d as [| a d IH]; [done |]. cbn [ends_with_sep].
  destruct d as [| b d'].
  - intros Ha%bool_decide_eq_true. exists "". by rewrite Ha.
  - intros He. destruct (IH He) as (d'' & E). exists (String a d'').
    sapp. by rewrite <- E.
Qed.

(** The last component of a path joined with a name is the name. *)
Lemma split_sep_join d c :
  proper c → ∃ l, split_sep (join d c) = l ++ [c].
Proof.
  intros Hc. pose proof (proper_no_sep c Hc) as Hs. unfold join.
  rewrite isabs_proper by done.
  destruct (bool_decide (d = "")) eqn:Ed.
  - apply bool_decide_eq_true in Ed as ->. exists [].
    cbn [orb]. rewrite append_nil_l. by apply split_sep_no_sep.
  - cbn [orb]. destruct (ends_with_sep d) eqn:Ee.
    + destruct (ends_with_sep_split d Ee) as (d' & ->).
      rewrite append_assoc. sapp. rewrite split_sep_app.
      exists (split_sep d'). by rewrite (split_sep_no_sep c).
    + rewrite ?append_assoc. sapp. rewrite split_sep_app.
      exists (split_sep d). by rewrite (split_sep_no_sep c).
Qed.

Lemma basename_join d c : proper c → basename (join d c) = c.
Proof.
  intros Hc. destruct (split_sep_join d c Hc) as (l & E).
  unfold basename. rewrite E. apply last_last.
Qed.

(** [normpath] keeps a proper last component. *)
Lemma basename_normpath p l c :
  isabs p = true → split_sep p = l ++ [c] → proper c →
  basename (normpath p) = c.
Proof.
  intros Habs Hsplit Hc. unfold normpath.
  rewrite bool_decide_eq_false_2 by (by destruct p).
  assert (negb (bool_decide (initial_slashes p = 0)) = true) as ->
    by (destruct (initial_slashes_abs p Habs) as [-> | ->]; done).
  cbv zeta. rewrite Hsplit, fold_left_app. cbn [fold_left].
  rewrite norm_step_proper by done. cbn [rev].
  set (comps := rev (fold_left (norm_step true) l [])).
  assert (Forall proper (comps ++ [c])) as Hall.
  { apply Forall_app. split; [| by constructor].
    apply Forall_rev, norm_fold_keeps_proper; [| constructor].
    pose proof (split_sep_has_no_sep p) as Hp. rewrite Hsplit in Hp.
    by apply Forall_app in Hp as [Hp _]. }
  fold (nf (initial_slashes p) (comps ++ [c])).
  rewrite bool_decide_eq_false_2
    by (apply nf_not_empty; by apply initial_slashes_abs).
  by apply basename_nf_snoc.
Qed.

Lemma wp_abspath_any w p Q :
  (∀ e w1, only_clock w w1 → Q (Raise e) w1) →
  (∀ w1, only_clock w w1 → Q (Ok (resolve w p)) w1) →
  wp (os_path_abspath p) Q w.
Proof.
  intros HE HQ. unfold os_path_abspath.
  pose proof (abspath_resolve (cwd w) p) as E.
  unfold resolve in HQ. rewrite <- E in HQ.
  destruct (isabs p); wp_steps.
  - apply HQ, only_clock_refl.
  - apply HE. only_clock_solve.
  - apply HQ. only_clock_solve.
Qed.

(** What the namer returns, when it returns. *)
Lemma generate_output_filename_run w filepath flag :
  wp (generate_output_filename filepath flag)
    (λ r w',
       only_clock w w'
       ∧ ∀ out_path out_name, r = Ok (out_path, out_name) →
           let abs_filepath := resolve w filepath in
           out_name
           = (let '(name, ext) := splitext (basename abs_filepath) in
              if flag then name +:+ Config.SJISX_SUFFIX +:+ ext
              else name +:+ Config.SJIS_SUFFIX +:+ ext)
           ∧ out_path
             = join (if bool_decide
                          (is_Some (fs w !! resolve w (dirname abs_filepath)))
                     then dirname abs_filepath else cwd w) out_name) w.
Proof.
  unfold generate_output_filename. wp_steps.
  apply wp_abspath_any.
  - intros e w1 Hw1. wp_simpl. wp_steps; (split; [only_clock_solve | done]).
  - intros w1 Hw1. wp_simpl. wp_steps.
    all: try (split; [only_clock_solve | done]).
    all: assert (fs w1 = fs w ∧ cwd w1 = cwd w) as [Efs Ecwd]
      by (destruct Hw1 as (? & ? & _); done).
    all: unfold resolve in *; rewrite Efs, Ecwd in *.
    all: split; [only_clock_solve |].
    all: intros out_path out_name [= <- <-]; cbv zeta.
    all: repeat match goal with E : _ = _ |- _ => rewrite E end; done.
Qed.

(** C9, as the code has it: when the namer returns, the new file name is
    the stem of the input's base name, then "_sjis" (or "_sjisx" when there
    are incompatible characters), then the extension; the new path is that
    name in the directory of the input's absolute path when that directory
    exists, and in the current directory when it does not; and the new path
    is neither the path given nor its absolute form. *)
Theorem generate_output_filename_spec (w : World)
    (filepath : string) (flag : bool) (out_path out_name : string) :
  isabs (cwd w) = true →
  (generate_output_filename filepath flag w).1 = Ok (out_path, out_name) →
  let abs_filepath := resolve w filepath in
  let suffix := if flag then "_sjisx" else "_sjis" in
  let dir_exists := is_Some (fs w !! resolve w (dirname abs_filepath)) in
  (∀ stem ext, splitext (basename abs_filepath) = (stem, ext) →
               out_name = stem +:+ suffix +:+ ext)
  ∧ (dir_exists →
     out_path = join (dirname abs_filepath) out_name
     ∧ dirname out_path = dirname abs_filepath)
  ∧ (¬ dir_exists → out_path = join (cwd w) out_name)
  ∧ basename out_path = out_name
  ∧ out_path ≠ filepath
  ∧ out_path ≠ abs_filepath.
Proof.
  intros Habs Hrun abs_filepath suffix dir_exists.
  pose proof (generate_output_filename_run w filepath flag) as Hwp.
  unfold wp in Hwp. destruct Hwp as [_ Hwp].
  destruct (Hwp out_path out_name Hrun) as [Hname Hpath]. clear Hwp.
  fold abs_filepath in Hname, Hpath. fold dir_exists in Hpath.
  pose proof (resolve_normal w filepath Habs) as Hnormal.
  fold abs_filepath in Hnormal.
  destruct (splitext (basename abs_filepath)) as [name ext] eqn:Hsplit.
  destruct (new_filename_proper (basename abs_filepath) name ext flag
              (has_sep_basename _) Hsplit) as [Hproper Hnew].
  assert (out_name = name +:+ suffix +:+ ext) as Hname'
    by (rewrite Hname; unfold suffix; by destruct flag).
  assert (proper out_name ∧ out_name ≠ basename abs_filepath)
    as [Hp Hne] by (rewrite Hname; by destruct flag).
  assert (basename out_path = out_name) as Hbase
    by (rewrite Hpath; by apply basename_join).
  split; [by intros stem' ext' [= <- <-] |].
  split; [| split; [| split; [done | split]]].
  - intros Hex. rewrite bool_decide_eq_true_2 in Hpath by done.
    split; [done |]. rewrite Hpath.
    destruct (dirname_normal _ Hnormal) as (n & comps & Hn & Hall & ->).
    rewrite join_nf by done.
    apply dirname_nf_snoc; [done |]. apply Forall_app. by split; [| constructor].
  - intros Hex. by rewrite bool_decide_eq_false_2 in Hpath.
  - intros E. apply Hne.
    assert (isabs out_path = true) as Hop.
    { rewrite Hpath. apply isabs_join. case_bool_decide; [| done].
      by apply normal_isabs, dirname_normal. }
    destruct (split_sep_join
                (if bool_decide dir_exists then dirname abs_filepath
                 else cwd w) out_name Hp) as (l & Hl).
    rewrite <- Hpath in Hl.
    unfold abs_filepath, resolve, resolve_from. rewrite <- E.
    rewrite join_abs by done. symmetry. by eapply basename_normpath.
  - intros E. apply Hne. by rewrite <- E.
Qed.

Lemma generate_output_filename_spec_witness :
  (generate_output_filename "hello.txt" false Sample.world0).1
  = Ok ("/home/user/hello_sjis.txt", "hello_sjis.txt")
  ∧ "/home/user/hello_sjis.txt" ≠ "hello.txt".
Proof.
  split; [reflexivity |].
  refine (proj1 (proj2 (proj2 (proj2 (proj2
    (generate_output_filename_spec
       Sample.world0 "hello.txt" false
       "/home/user/hello_sjis.txt" "hello_sjis.txt" _ _)))))).
  - reflexivity.
  - reflexivity.
Defined.

(** C9 as stated fails: when the directory of the input is not there, the
    new path is in the current directory. *)
Lemma output_falls_back_to_cwd :
  (generate_output_filename "/gone/a.txt" false Sample.world0).1
  = Ok ("/home/user/a_sjis.txt", "a_sjis.txt")
  ∧ dirname "/home/user/a_sjis.txt" ≠ dirname "/gone/a.txt".
Proof. split; [reflexivity | vm_compute; discriminate]. Qed.

(** ** The compatibility scanner *)

Lemma later_0 w : later 0 w = w.
Proof. by destruct w. Qed.

Lemma later_S n w : later n (set_clock (S (clock w)) w) = later (S n) w.
Proof. unfold later, set_clock. simpl. f_equal. lia. Qed.

Lemma chunks_fuel_enough {A} n (l : list A) : ∀ fuel,
  0 < n → length l ≤ fuel → chunks_fuel fuel n l = chunks_of n l.
Proof.
  unfold chunks_of. remember (length l) as k eqn:Hk.
  revert l Hk. induction k as [k IH] using lt_wf_ind.
  intros l Hk fuel Hn Hfuel. destruct l as [| x l].
  - simpl in Hk. subst k. by destruct fuel.
  - simpl in Hk. subst k. destruct fuel as [| fuel]; [simpl in Hfuel; lia |].
    cbn [chunks_fuel length]. f_equal.
    assert (length (drop n (x :: l)) < S (length l)) as Hlt
      by (rewrite length_drop; simpl; lia).
    rewrite (IH _ Hlt (drop n (x :: l)) eq_refl fuel Hn)
      by (simpl in Hfuel; lia).
    rewrite (IH _ Hlt (drop n (x :: l)) eq_refl (length l) Hn)
      by (simpl in Hlt; lia).
    done.
Qed.

Lemma chunks_of_nil {A} n : chunks_of n (@nil A) = [].
Proof. reflexivity. Qed.

Lemma chunks_of_cons {A} n (x : A) l :
  0 < n →
  chunks_of n (x :: l) = take n (x :: l) :: chunks_of n (drop n (x :: l)).
Proof.
  intros Hn. unfold chunks_of at 1. cbn [length chunks_fuel]. f_equal.
  apply chunks_fuel_enough; [done |]. rewrite length_drop. simpl. lia.
Qed.

(** The chunks are a partition of the text. *)
Lemma concat_chunks_of {A} n (l : list A) :
  0 < n → concat (chunks_of n l) = l.
Proof.
  intros Hn. remember (length l) as k eqn:Hk.
  revert l Hk. induction k as [k IH] using lt_wf_ind.
  intros [| x l] Hk; [done |].
  rewrite chunks_of_cons by done. cbn [concat].
  rewrite (IH (length (drop n (x :: l)))); [apply take_drop | | done].
  subst k. rewrite length_drop. simpl. lia.
Qed.

Section Scanner.
Context `{Collaborators}.

Lemma scan_chunk_existsb chunk :
  scan_chunk chunk
  = existsb (λ c, negb (check_char_sjis_compatibility c)) chunk.
Proof.
  induction chunk as [| c chunk IH]; [done |]. simpl.
  by destruct (check_char_sjis_compatibility c).
Qed.

Lemma scan_chunk_compatible chunk :
  Forall (λ c, check_char_sjis_compatibility c = true) chunk →
  scan_chunk chunk = false.
Proof.
  induction 1 as [| c chunk Hc _ IH]; [done |]. simpl. by rewrite Hc.
Qed.

Lemma scan_chunk_incompatible pre c post :
  check_char_sjis_compatibility c = false →
  scan_chunk (pre ++ c :: post) = true.
Proof.
  intros Hc. induction pre as [| x pre IH]; simpl.
  - by rewrite Hc.
  - by destruct (check_char_sjis_compatibility x).
Qed.

(** A quiet run of the loop: its answer, and the reads it made. *)
Lemma scan_loop_quiet path pending : ∀ w,
  quiet w (reads_needed pending) →
  scan_loop path pending w
  = (Ok (existsb scan_chunk pending), later (reads_needed pending) w).
Proof.
  induction pending as [| chunk pending IH]; intros w Hq.
  - cbn [scan_loop reads_needed existsb]. unfold bind, tick.
    rewrite (quiet_now w 0) by done. reflexivity.
  - cbn [scan_loop reads_needed existsb] in *. unfold bind, tick.
    destruct (scan_chunk chunk) eqn:Hc.
    + rewrite (quiet_now w 0) by done. reflexivity.
    + rewrite (quiet_now w _ _ Hq). cbn [orb].
      rewrite IH by (by apply quiet_next). by rewrite later_S.
Qed.


Lemma existsb_scan_chunk_concat chunks :
  existsb scan_chunk chunks
  = existsb (λ c, negb (check_char_sjis_compatibility c)) (concat chunks).
Proof.
  induction chunks as [| chunk chunks IH]; [done |].
  cbn [existsb concat]. by rewrite existsb_app, scan_chunk_existsb, IH.
Qed.

Lemma chunks_of_nonempty {A} n (l : list A) :
  0 < n → l ≠ [] → chunks_of n l = take n l :: chunks_of n (drop n l).
Proof. intros Hn Hl. destruct l; [done |]. by apply chunks_of_cons. Qed.

(** The scanner reads up to the chunk that holds the first incompatible
    character, and no further. *)
Lemma reads_needed_first_incompatible n pre c post :
  0 < n →
  Forall (λ c, check_char_sjis_compatibility c = true) pre →
  check_char_sjis_compatibility c = false →
  reads_needed (chunks_of n (pre ++ c :: post)) = length pre / n + 1.
Proof.
  intros Hn. remember (length pre) as k eqn:Hk.
  revert pre Hk. induction k as [k IH] using lt_wf_ind.
  intros pre Hk Hpre Hc.
  rewrite chunks_of_nonempty by (done || by destruct pre).
  cbn [reads_needed]. destruct (decide (k < n)) as [Hlt | Hge].
  - rewrite take_app_ge by lia.
    assert (∃ m, n - length pre = S m) as [m ->] by (exists (n - length pre - 1); lia).
    cbn [take]. rewrite scan_chunk_incompatible by done.
    rewrite Nat.div_small by done. done.
  - rewrite take_app_le, drop_app_le by lia.
    rewrite scan_chunk_compatible by (by apply Forall_take).
    rewrite (IH (length (drop n pre))); try done.
    + rewrite length_drop, <- Hk.
      replace k with (1 * n + (k - n)) at 2 by lia.
      rewrite Nat.div_add_l by lia. lia.
    + rewrite length_drop. lia.
    + by apply Forall_drop.
Qed.

(** A quiet scan of a file that a known codec reads: the answer says
    whether some character of the decoded text is incompatible. *)
Lemma check_sjis_compatibility_stream_quiet w p encoding b decode :
  fs w !! resolve w p = Some (File b) →
  codec_decode (get_read_encoding encoding) = Some decode →
  let pending := chunks_of Config.COMPATIBILITY_CHECK_SIZE (decode b) in
  quiet w (S (reads_needed pending)) →
  check_sjis_compatibility_stream p encoding w
  = (Ok (existsb (λ c, negb (check_char_sjis_compatibility c)) (decode b)),
     later (S (reads_needed pending)) w).
Proof.
  intros Hfs Hcodec pending Hq.
  pose proof (scan_loop_quiet (resolve w p) pending
                (set_clock (S (clock w)) w) (quiet_next _ _ Hq)) as Hloop.
  rewrite later_S in Hloop.
  unfold pending in Hloop at 2.
  rewrite existsb_scan_chunk_concat, concat_chunks_of in Hloop
    by (unfold Config.COMPATIBILITY_CHECK_SIZE; lia).
  unfold check_sjis_compatibility_stream, try_except, codecs_open_r, open_rb,
    reads, bind, get, tick. cbv beta.
  rewrite (quiet_now w _ _ Hq). cbv beta iota. cbn [fs set_clock].
  rewrite Hfs. cbv beta iota.
  rewrite Hcodec. unfold ret. cbn [tf_path tf_rest rf_path rf_rest].
  fold pending. by rewrite Hloop.
Qed.


Lemma length_chunks_of {A} n (l : list A) :
  0 < n → length (chunks_of n l) ≤ length l.
Proof.
  intros Hn. remember (length l) as k eqn:Hk.
  revert l Hk. induction k as [k IH] using lt_wf_ind.
  intros [| x l] Hk; [by subst |].
  rewrite chunks_of_cons by done. cbn [length].
  assert (length (drop n (x :: l)) < k) as Hlt
    by (subst k; rewrite length_drop; simpl; lia).
  pose proof (IH _ Hlt (drop n (x :: l)) eq_refl). simpl in *. lia.
Qed.

Lemma reads_needed_bound pending : reads_needed pending ≤ S (length pending).
Proof.
  induction pending as [| chunk pending IH]; simpl; [lia |].
  destruct (scan_chunk chunk); lia.
Qed.


End Scanner.

Lemma existsb_negb_Exists {A} (f : A → bool) l :
  existsb (λ c, negb (f c)) l = true ↔ Exists (λ c, f c = false) l.
Proof.
  induction l as [| c l IH]; cbn [existsb].
  - split; [done | by intros ?%Exists_nil].
  - by rewrite Exists_cons, orb_true_iff, IH, negb_true_iff.
Qed.



(** ** Trees in the file system *)

Lemma starts_with_app pre rest : starts_with pre (pre +:+ rest) = true.
Proof.
  induction pre as [| a pre IH]; [done |]. sapp. cbn [starts_with].
  by rewrite bool_decide_eq_true_2.
Qed.

Lemma starts_with_split pre s :
  starts_with pre s = true → ∃ rest, s = pre +:+ rest.
Proof.
  revert s. induction pre as [| a pre IH]; intros s; [by exists s |].
  destruct s as [| b s]; [done |]. cbn [starts_with].
  intros [Hab Hs]%andb_true_iff. apply bool_decide_eq_true in Hab as <-.
  destruct (IH s Hs) as (rest & ->). by exists rest.
Qed.

Lemma drop_string_app a b : drop_string (String.length a) (a +:+ b) = b.
Proof. induction a as [| c a IH]; [done |]. sapp. by simpl. Qed.

Lemma is_under_refl d : is_under d d = true.
Proof. unfold is_under. by rewrite bool_decide_eq_true_2. Qed.

Lemma is_under_split d k :
  is_under d k = true → k = d ∨ ∃ rest, k = d +:+ String sep rest.
Proof.
  unfold is_under. intros [Hk | Hk]%orb_true_iff.
  - left. by apply bool_decide_eq_true in Hk.
  - right. destruct (starts_with_split _ _ Hk) as (rest & ->).
    exists rest. by rewrite append_assoc.
Qed.

(** What is under [src] lands under [dst]. *)
Lemma is_under_rekey src dst k :
  is_under src k = true → is_under dst (rekey src dst k) = true.
Proof.
  intros [-> | (rest & ->)]%is_under_split; unfold rekey.
  - replace (drop_string (String.length src) src) with ""
      by (rewrite <- (append_nil_r src) at 2; by rewrite drop_string_app).
    rewrite append_nil_r. apply is_under_refl.
  - rewrite drop_string_app. unfold is_under.
    replace (dst +:+ String sep rest) with ((dst +:+ "/") +:+ rest)
      by (by rewrite append_assoc).
    rewrite starts_with_app. apply orb_true_r.
Qed.

Lemma rekey_src src dst k :
  is_under src k = true → rekey src dst k = dst → k = src.
Proof.
  intros [-> | (rest & ->)]%is_under_split; [done |]. unfold rekey.
  rewrite drop_string_app. intros E. exfalso.
  assert (String.length (dst +:+ String sep rest) = String.length dst) as Hl
    by (by rewrite E).
  rewrite length_append in Hl. simpl in Hl. lia.
Qed.

Lemma fs_remove_tree_lookup d (m : gmap string node) k :
  fs_remove_tree d m !! k = if is_under d k then None else m !! k.
Proof.
  unfold fs_remove_tree. destruct (is_under d k) eqn:E.
  - apply map_lookup_filter_None. right. intros v _. simpl. congruence.
  - destruct (m !! k) as [v |] eqn:Hk.
    + apply map_lookup_filter_Some. by split.
    + apply map_lookup_filter_None. by left.
Qed.

(** Grafting changes nothing outside [dst]. *)
Lemma fs_graft_lookup_other src dst (from into : gmap string node) k :
  is_under dst k = false → fs_graft src dst from into !! k = into !! k.
Proof.
  intros Hk. unfold fs_graft.
  apply (map_fold_weak_ind (λ acc _, acc !! k = into !! k)); [done |].
  intros i v m acc Hi IH. destruct (is_under src i) eqn:Ei; [| done].
  rewrite lookup_insert_ne; [done |]. intros <-.
  rewrite is_under_rekey in Hk by done. done.
Qed.

(** Grafting puts the root of the tree at [dst]. *)
Lemma fs_graft_lookup_dst src dst (from into : gmap string node) v :
  from !! src = Some v → fs_graft src dst from into !! dst = Some v.
Proof.
  unfold fs_graft.
  apply (map_fold_weak_ind
           (λ acc m, m !! src = Some v → acc !! dst = Some v)); [done |].
  intros i x m acc Hi IH Hlook.
  destruct (decide (i = src)) as [-> | Hne].
  - rewrite lookup_insert_eq in Hlook. injection Hlook as ->.
    rewrite is_under_refl.
    assert (rekey src dst src = dst) as ->.
    { unfold rekey.
      replace (drop_string (String.length src) src) with ""
        by (rewrite <- (append_nil_r src) at 2; by rewrite drop_string_app).
      by rewrite append_nil_r. }
    by rewrite lookup_insert_eq.
  - rewrite lookup_insert_ne in Hlook by done.
    destruct (is_under src i) eqn:Ei; [| by apply IH].
    rewrite lookup_insert_ne; [by apply IH |].
    intros E. by apply Hne, (rekey_src src dst).
Qed.

Lemma fs_rename_tree_lookup_other src dst (m : gmap string node) k :
  is_under src k = false → is_under dst k = false →
  fs_rename_tree src dst m !! k = m !! k.
Proof.
  intros Hs Hd. unfold fs_rename_tree.
  rewrite fs_graft_lookup_other by done.
  by rewrite !fs_remove_tree_lookup, Hs, Hd.
Qed.

Lemma fs_rename_tree_lookup_src src dst (m : gmap string node) :
  is_under dst src = false → fs_rename_tree src dst m !! src = None.
Proof.
  intros Hd. unfold fs_rename_tree. rewrite fs_graft_lookup_other by done.
  by rewrite !fs_remove_tree_lookup, Hd, is_under_refl.
Qed.

Lemma fs_copy_tree_lookup_other src dst (m : gmap string node) k :
  is_under dst k = false → fs_copy_tree src dst m !! k = m !! k.
Proof. apply fs_graft_lookup_other. Qed.

(** ** The batch driver *)

Lemma counts_app f rs1 rs2 : counts f (rs1 ++ rs2) = counts f rs1 + counts f rs2.
Proof. unfold counts. by rewrite List.filter_app, length_app. Qed.

Lemma counts_one f (item : string * ConversionResult) :
  counts f [item] = if f item.2 then 1 else 0.
Proof. unfold counts. simpl. by destruct (f item.2). Qed.

(** Every result the orchestrator can return falls in one of four classes. *)
Lemma outcome_classes rs :
  Forall (λ item : string * ConversionResult, outcome item.2) rs →
  counts converted rs
  + counts (λ r, success r && skipped r) rs
  + counts (λ r, negb (success r) && negb (skipped r)) rs
  + counts is_declined rs
  = length rs.
Proof.
  induction 1 as [| [name r] rs Hout _ IH]; [done |].
  change ((name, r) :: rs) with ([(name, r)] ++ rs).
  rewrite !counts_app, !counts_one, length_app. unfold is_declined in *.
  simpl in Hout. destruct Hout; simpl in *; lia.
Qed.

Section DriverRuns.
Context `{Collaborators}.

Lemma process_file_tally i p t w :
  wp (process_file i p t)
    (λ r _, ∃ x, outcome x
       ∧ r = Ok (mk_tally (results t ++ [(reported_name i p, x)])
                   (converted_count t + (if converted x then 1 else 0))
                   (skipped_count t
                    + (if success x && skipped x then 1 else 0))
                   (failed_count t
                    + (if negb (success x) && negb (skipped x) then 1
                       else 0)))) w.
Proof.
  unfold process_file. wp_steps.
  wp_call convert_to_sjis_returns; destruct Hw' as (x & Hx & Hout);
    [| discriminate].
  injection Hx as ->. wp_steps. exists x. split; [done |].
  destruct Hout; cbn; unfold incr_skipped, incr_converted, incr_failed,
    add_result; cbn; rewrite ?Nat.add_0_r; reflexivity.
Qed.

(** The loop adds one result for each path, under the name the path is
    reported under, and counts each result in its class. *)
Lemma process_loop_tally filepaths : ∀ i t w,
  wp (process_loop i filepaths t)
    (λ r _, ∃ rs,
       r = Ok (mk_tally (results t ++ rs)
                 (converted_count t + counts converted rs)
                 (skipped_count t
                  + counts (λ x, success x && skipped x) rs)
                 (failed_count t
                  + counts (λ x, negb (success x) && negb (skipped x)) rs))
       ∧ rs.*1 = imap (λ j p, reported_name (i + j) p) filepaths
       ∧ Forall (λ item, outcome item.2) rs) w.
Proof.
  induction filepaths as [| p filepaths IH]; intros i t w.
  - cbn [process_loop]. wp_steps. exists []. unfold counts. simpl.
    rewrite app_nil_r, !Nat.add_0_r. by destruct t.
  - cbn [process_loop]. wp_steps.
    wp_call process_file_tally; destruct Hw' as (x & Hout & Hx);
      [| discriminate].
    injection Hx as ->.
    eapply wp_mono; [apply IH |]. cbn beta.
    intros r w'' (rs & -> & Hnames & Houts).
    exists ((reported_name i p, x) :: rs). cbn [results converted_count
      skipped_count failed_count].
    change ((reported_name i p, x) :: rs)
      with ([(reported_name i p, x)] ++ rs).
    rewrite !counts_app, !counts_one, <- !app_assoc, !Nat.add_assoc.
    split; [done |]. split.
    + cbn. rewrite Hnames, Nat.add_0_r. f_equal.
      apply imap_ext; intros j q _. cbn. f_equal. lia.
    + by constructor.
Qed.

End DriverRuns.

(** What the driver returns: the results of the loop and its counters. *)
Lemma process_files_run `{Collaborators} (w : World)
    (filepaths : list string) :
  ∃ rs,
    (_process_files_from_args filepaths w).1
    = Ok (rs, counts converted rs,
          counts (λ x, success x && skipped x) rs,
          counts (λ x, negb (success x) && negb (skipped x)) rs,
          length filepaths)
    ∧ rs.*1 = imap (λ j p, reported_name (S j) p) filepaths
    ∧ Forall (λ item, outcome item.2) rs.
Proof.
  pose proof (process_loop_tally filepaths 1 (mk_tally [] 0 0 0) w) as Hloop.
  unfold wp in Hloop. destruct Hloop as (rs & Hrs & Hnames & Houts).
  cbn in Hrs. exists rs. split; [| by split].
  unfold _process_files_from_args, bind.
  destruct (process_loop 1 filepaths _ w) as [r w']. simpl in Hrs.
  subst r. reflexivity.
Qed.

(** The batch driver returns one result for each path, in order and under
    the name the path is reported under, each of them a result the
    orchestrator can return.  The three counters count the converted
    results, the skips with success, and the failures; a declined overwrite
    is counted by none of them, so the counters add up to the total less the
    number of declined overwrites. *)
Theorem process_files_tally `{Collaborators} (w : World)
    (filepaths : list string) :
  ∃ rs c s f,
    (_process_files_from_args filepaths w).1
    = Ok (rs, c, s, f, length filepaths)
    ∧ rs.*1 = imap (λ j p, reported_name (S j) p) filepaths
    ∧ Forall (λ item, outcome item.2) rs
    ∧ c = counts converted rs
    ∧ s = counts (λ x, success x && skipped x) rs
    ∧ f = counts (λ x, negb (success x) && negb (skipped x)) rs
    ∧ c + s + f + counts is_declined rs = length filepaths.
Proof.
  destruct (process_files_run w filepaths) as (rs & Hrun & Hnames & Houts).
  exists rs. eexists _, _, _. split; [exact Hrun |].
  split; [exact Hnames |]. split; [exact Houts |].
  split; [done |]. split; [done |]. split; [done |].
  rewrite outcome_classes by done.
  rewrite <- (length_fmap fst rs), Hnames. apply length_imap.
Qed.

(** ** The summary line *)

Lemma pretty_N_go_head x : ∀ s,
  (s = "" → x ≠ 0%N) →
  (∀ c r, s = String c r → is_digit c = true) →
  ∃ c r, pretty_N_go x s = String c r ∧ is_digit c = true.
Proof.
  induction (N.lt_wf_0 x) as [x _ IH]; intros s Hne Hd.
  assert (x = 0 ∨ 0 < x)%N as [-> | Hx] by lia.
  - rewrite pretty_N_go_0. destruct s as [| c r]; [by destruct Hne |].
    exists c, r. split; [done |]. by apply (Hd c r).
  - rewrite pretty_N_go_step by done. apply IH.
    + by apply N.div_lt.
    + discriminate.
    + intros c r [= <- _]. unfold pretty_N_char. by repeat case_match.
Qed.

(** A number in decimal begins with a digit. *)
Lemma pretty_nat_head (n : nat) u :
  ∃ c r, pretty n +:+ u = String c r ∧ is_digit c = true.
Proof.
  unfold pretty, pretty_nat, pretty, pretty_N.
  destruct (decide (N.of_nat n = 0%N)) as [_ | Hn].
  - by exists "0"%char, u.
  - destruct (pretty_N_go_head (N.of_nat n) "") as (c & r & E & Hc);
      [done | discriminate |].
    exists c, (r +:+ u). rewrite E. done.
Qed.

Lemma summary_str_nothing c s f :
  summary_str c s f = msg_nothing_done ↔ c = 0 ∧ s = 0 ∧ f = 0.
Proof.
  split.
  - unfold summary_str, summary_parts. intros E.
    assert (∀ (k : nat) u, pretty k +:+ u ≠ msg_nothing_done) as Hno.
    { intros k u Hk. destruct (pretty_nat_head k u) as (a & r & Ea & Ha).
      rewrite Ea in Hk. unfold msg_nothing_done in Hk.
      injection Hk as -> _. discriminate. }
    repeat case_bool_decide; cbn [app str_join] in E;
      rewrite ?append_assoc in E;
      try (exfalso; by eapply Hno); lia.
  - intros (-> & -> & ->). reflexivity.
Qed.

Lemma counts_le f rs : counts f rs ≤ length rs.
Proof. apply List.filter_length_le. Qed.

Lemma counts_cons f item rs :
  counts f (item :: rs) = (if f item.2 then 1 else 0) + counts f rs.
Proof. unfold counts. simpl. by destruct (f item.2). Qed.

Lemma counts_all f rs :
  counts f rs = length rs → Forall (λ item, f item.2 = true) rs.
Proof.
  induction rs as [| item rs IH]; [constructor |].
  rewrite counts_cons. pose proof (counts_le f rs). cbn [length].
  destruct (f item.2) eqn:E; [| lia]. intros Hc. constructor; [done |].
  apply IH. lia.
Qed.

Lemma declined_only rs :
  Forall (λ item : string * ConversionResult, outcome item.2) rs →
  Forall (λ item, is_declined item.2 = true) rs →
  counts converted rs = 0
  ∧ counts (λ x, success x && skipped x) rs = 0
  ∧ counts (λ x, negb (success x) && negb (skipped x)) rs = 0.
Proof.
  induction 1 as [| [name r] rs Hout _ IH]; [done |].
  intros Hd. apply Forall_cons in Hd as [Hr Hd].
  rewrite !counts_cons. destruct (IH Hd) as (-> & -> & ->).
  simpl in Hout, Hr. unfold is_declined in Hr.
  destruct Hout; simpl in *; done.
Qed.

(** The summary says that nothing was processed exactly when every result
    of the batch is a declined overwrite, which no counter counts; an empty
    batch is the case of no result at all. *)
Theorem summary_nothing_done `{Collaborators} (w : World)
    (filepaths : list string) :
  ∃ rs c s f,
    (_process_files_from_args filepaths w).1
    = Ok (rs, c, s, f, length filepaths)
    ∧ (summary_str c s f = msg_nothing_done
       ↔ Forall (λ item, is_declined item.2 = true) rs).
Proof.
  destruct (process_files_run w filepaths) as (rs & Hrun & Hnames & Houts).
  exists rs. eexists _, _, _. split; [exact Hrun |].
  rewrite summary_str_nothing.
  pose proof (outcome_classes rs Houts) as Hall. split.
  - intros (Hc & Hs & Hf). apply counts_all. lia.
  - intros Hd. by apply declined_only.
Qed.

(** ** The overwrite prompt *)

Lemma confirm_loop_junk junk events :
  Forall (λ s, says_yes s = false ∧ says_no s = false) junk →
  confirm_loop ((Line <$> junk) ++ events) = confirm_loop events.
Proof.
  induction 1 as [| s junk [Hy Hn] _ IH]; [done |].
  cbn [fmap list_fmap app confirm_loop]. unfold says_yes, says_no in Hy, Hn.
  cbv zeta. rewrite Hy, Hn. exact IH.
Qed.

(** [confirm_overwrite] reads lines until one is a yes or a no, whatever the
    case of its letters, and answers with that line; the lines before it are
    read and dropped.  The end of the input and an interrupt answer no, and
    so does an input that runs out.  Only the input is consumed. *)
Theorem confirm_overwrite_spec (filename : string) (w : World)
    (junk : list string) :
  Forall (λ s, says_yes s = false ∧ says_no s = false) junk →
  (stdin w = Line <$> junk →
   confirm_overwrite filename w = (Ok false, set_stdin [] w))
  ∧ (∀ s rest,
       stdin w = (Line <$> junk) ++ Line s :: rest →
       says_yes s || says_no s = true →
       confirm_overwrite filename w = (Ok (says_yes s), set_stdin rest w))
  ∧ (∀ ev rest,
       stdin w = (Line <$> junk) ++ ev :: rest →
       ev = EndOfFile ∨ ev = Interrupt →
       confirm_overwrite filename w = (Ok false, set_stdin rest w)).
Proof.
  intros Hjunk. unfold confirm_overwrite. split; [| split].
  - intros ->. rewrite <- (app_nil_r (Line <$> junk)).
    by rewrite confirm_loop_junk.
  - intros s rest -> Hs. rewrite confirm_loop_junk by done.
    cbn [confirm_loop]. cbv zeta. unfold says_yes, says_no in *.
    destruct (bool_decide (lower s ∈ ["y"; "yes"])); [done |].
    simpl in Hs. by rewrite Hs.
  - intros ev rest -> [-> | ->]; by rewrite confirm_loop_junk.
Qed.

Lemma confirm_overwrite_spec_witness :
  confirm_overwrite "hello_sjis.txt" Sample.world_declined
  = (Ok false, set_stdin [] Sample.world_declined)
  ∧ confirm_overwrite "hello_sjis.txt"
      (set_stdin [Line "what?"; Line "YES"; Line "no"] Sample.world0)
    = (Ok true, set_stdin [Line "no"] Sample.world0).
Proof.
  split.
  - apply (proj1 (proj2 (confirm_overwrite_spec "hello_sjis.txt"
                           Sample.world_declined ["maybe"]
                           ltac:(by repeat constructor))) "N" []);
      reflexivity.
  - apply (proj1 (proj2 (confirm_overwrite_spec "hello_sjis.txt"
                           (set_stdin [Line "what?"; Line "YES"; Line "no"]
                              Sample.world0) ["what?"]
                           ltac:(by repeat constructor))) "YES" [Line "no"]);
      reflexivity.
Defined.

(** ** Paths below a normal directory *)

Lemma join_normal dir c :
  normal dir → proper c →
  normal (join dir c) ∧ dirname (join dir c) = dir ∧ basename (join dir c) = c.
Proof.
  intros (n & comps & Hn & Hall & ->) Hc.
  assert (Forall proper (comps ++ [c])) as Hall'
    by (apply Forall_app; split; [done | by constructor]).
  rewrite join_nf by done. split; [by exists n, (comps ++ [c]) |].
  split; [by apply dirname_nf_snoc | by apply basename_nf_snoc].
Qed.

Lemma join_inj dir c1 c2 :
  normal dir → proper c1 → proper c2 → join dir c1 = join dir c2 → c1 = c2.
Proof.
  intros Hd H1 H2 E.
  destruct (join_normal dir c1 Hd H1) as (_ & _ & <-).
  destruct (join_normal dir c2 Hd H2) as (_ & _ & <-). by rewrite E.
Qed.

Lemma proper_append c s :
  proper c → has_sep s = false → proper (c +:+ s).
Proof.
  intros (Hsep & Hne & Hdot & Hdots) Hs. split; [| split; [| split]].
  - by rewrite has_sep_append, Hsep, Hs.
  - destruct c; [done |]. sapp. discriminate.
  - destruct c as [| a [| b c]]; [done | |]; sapp.
    + intros [= -> E]. done.
    + discriminate.
  - destruct c as [| a [| b [| d c]]]; [done | | |]; sapp.
    + intros [= -> E]. destruct s as [| x [| y s]]; try discriminate.
      injection E as ->. done.
    + intros [= -> -> E]. done.
    + discriminate.
Qed.

Lemma join_append dir c s :
  proper c → has_sep s = false → join dir c +:+ s = join dir (c +:+ s).
Proof.
  intros Hc Hs. unfold join.
  rewrite (isabs_proper c), (isabs_proper (c +:+ s))
    by (done || by apply proper_append).
  destruct (_ || _); by rewrite ?append_assoc.
Qed.

Lemma temp_name_proper name : has_sep name = false → proper (temp_name name).
Proof.
  intros Hn. unfold temp_name. split; [| split; [| split]].
  - by rewrite !has_sep_append, Hn.
  - sapp. discriminate.
  - sapp. discriminate.
  - sapp. discriminate.
Qed.

(** ** Runs in which no system call fails *)

(** The run returns [x] and leaves the files [m] and the names [names];
    the working directory, the oracle and the input are as before. *)
Definition ends {A} (x : A) (m : gmap string node) (names : list string)
    (w : World) : res A → World → Prop :=
  λ r w', r = Ok x ∧ fs w' = m ∧ tmp_names w' = names
          ∧ cwd w' = cwd w ∧ fault w' = fault w ∧ stdin w' = stdin w.

Lemma calm_ends {A} (x : A) m names w r w' :
  calm w → ends x m names w r w' → calm w'.
Proof. intros Hc (_ & _ & _ & _ & Hf & _) n s. rewrite Hf. apply Hc. Qed.

Lemma ends_trans {A B} (x : A) (y : B) m1 n1 m2 n2 w r1 w1 r2 w2 :
  ends x m1 n1 w r1 w1 → ends y m2 n2 w1 r2 w2 → ends y m2 n2 w r2 w2.
Proof.
  intros (_ & _ & _ & ? & ? & ?) (? & ? & ? & ? & ? & ?).
  repeat split; congruence.
Qed.

Ltac calm_tick :=
  lazymatch goal with
  | |- wp (tick _) _ _ =>
      apply wp_tick_quiet;
      [ cbn [fault clock set_clock set_fs set_tmp_names set_stdin];
        match goal with Hc : calm _ |- _ => apply Hc end |]; wp_simpl
  end.

(** A normal path resolves to itself. *)
Ltac resolve_known :=
  repeat match goal with
    | Hn : normal ?a |- context [resolve ?w ?a] => rewrite (resolve_id w a Hn)
    end.

Ltac fs_known :=
  repeat match goal with
    | E : dirname ?a = _ |- context [dirname ?a] => rewrite E
    | E : fs ?w = _ |- context [fs ?w] => rewrite E
    | E : ?m !! ?k = _ |- context [?m !! ?k] => rewrite E
    | E : tmp_names ?w = _ |- context [tmp_names ?w] => rewrite E
    end.

Lemma bool_decide_is_Some_Some {A} (x : A) :
  bool_decide (is_Some (Some x)) = true.
Proof. by apply bool_decide_eq_true_2. Qed.

Lemma bool_decide_is_Some_None {A} : bool_decide (is_Some (@None A)) = false.
Proof. apply bool_decide_eq_false_2. by intros [? ?]. Qed.

Lemma bool_decide_refl `{EqDecision A} (x : A) : bool_decide (x = x) = true.
Proof. by apply bool_decide_eq_true_2. Qed.

Lemma bool_decide_file_dir x :
  bool_decide (Some (File x) = Some Dir) = false.
Proof. by apply bool_decide_eq_false_2. Qed.

Lemma bool_decide_none_dir : bool_decide (@None node = Some Dir) = false.
Proof. by apply bool_decide_eq_false_2. Qed.

Ltac fs_simpl :=
  repeat first
    [ rewrite lookup_insert_eq
    | rewrite bool_decide_refl
    | rewrite bool_decide_file_dir
    | rewrite bool_decide_none_dir
    | rewrite lookup_delete_eq
    | rewrite lookup_insert_ne by done
    | rewrite lookup_delete_ne by done
    | rewrite bool_decide_is_Some_Some
    | rewrite bool_decide_is_Some_None
    | rewrite andb_false_r
    | rewrite andb_true_r ].

(** A step written as a function of the world. *)
Ltac wp_lambda :=
  lazymatch goal with
  | |- wp (λ _, (_, _)) _ _ => unfold wp at 1; cbn [fst snd]; wp_simpl
  end.

Ltac wp_calm :=
  repeat (first [calm_tick | wp_lambda | wp_rule | progress unfold finallyQ];
          resolve_known; fs_known; fs_simpl; cbn [negb andb orb]).

Ltac ends_solve :=
  unfold ends in *;
  cbn [fs cwd fault tmp_names stdin clock set_fs set_clock set_tmp_names
       set_stdin] in *;
  intuition (try congruence).

(** Go on after a call of which [lemma] gives the end. *)
Ltac calm_solve :=
  unfold calm; intros ? ?;
  cbn [fault set_clock set_fs set_tmp_names set_stdin];
  match goal with Hc : calm _ |- _ => apply Hc end.

Ltac side_solve :=
  cbn [fs tmp_names set_clock set_fs set_tmp_names set_stdin];
  first [ assumption | calm_solve | by (fs_known; fs_simpl; fs_known)
        | done ].

Ltac wp_then lemma :=
  eapply wp_mono; [eapply lemma; side_solve |];
  let r := fresh "r" in
  let w' := fresh "w" in
  let Hw := fresh "Hw" in
  let Hc := fresh "Hcalm" in
  intros r w' Hw;
  assert (calm w') as Hc by (eapply calm_ends; [| exact Hw]; calm_solve);
  destruct Hw as (-> & ? & ? & ? & ? & ?);
  cbn [fs cwd fault tmp_names stdin set_clock set_fs set_tmp_names
       set_stdin] in *;
  wp_simpl.

Lemma create_temp_file_safely_calm w dir name names :
  calm w → normal dir → has_sep name = false →
  tmp_names w = name :: names →
  fs w !! dir = Some Dir →
  fs w !! join dir (temp_name name) = None →
  wp (create_temp_file_safely dir)
    (ends (join dir (temp_name name))
       (<[join dir (temp_name name) := File []]> (fs w)) names w) w.
Proof.
  intros Hcalm Hdir Hname Hnames Hd Hfree.
  destruct (join_normal dir (temp_name name) Hdir
              (temp_name_proper name Hname)) as (Htemp & Hparent & _).
  pose proof (normal_isabs dir Hdir) as Habs.
  pose proof (normpath_normal dir Hdir) as Hnorm.
  assert (bool_decide (fs w !! dir = Some Dir) = true) as Hisdir
    by by apply bool_decide_eq_true_2.
  unfold create_temp_file_safely, tempfile_mkstemp, os_path_abspath.
  wp_calm. rewrite Hnorm. cbn [mkstemp_inner]. fold (temp_name name).
  unfold os_open_excl, os_close. wp_calm. ends_solve.
Qed.

Lemma normal_not_empty a : normal a → a ≠ "".
Proof. intros (n & comps & Hn & _ & ->). by apply nf_not_empty. Qed.

Section ConverterRuns.
Context `{Collaborators}.

Lemma convert_make_temp_calm w dir c name names :
  calm w → normal dir → proper c → has_sep name = false →
  tmp_names w = name :: names →
  fs w !! dir = Some Dir →
  fs w !! join dir (temp_name name) = None →
  wp (convert_make_temp (join dir c))
    (ends (join dir (temp_name name))
       (<[join dir (temp_name name) := File []]> (fs w)) names w) w.
Proof.
  intros Hcalm Hdir Hc Hname Hnames Hd Hfree.
  destruct (join_normal dir c Hdir Hc) as (_ & Hparent & _).
  unfold convert_make_temp. cbv zeta. rewrite Hparent.
  rewrite bool_decide_eq_false_2 by by apply normal_not_empty.
  wp_calm. by apply create_temp_file_safely_calm.
Qed.

Lemma codecs_open_r_calm w input e b decode :
  calm w → normal input →
  fs w !! input = Some (File b) →
  codec_decode e = Some decode →
  wp (codecs_open_r input e)
    (ends (mk_tfile input (decode b)) (fs w) (tmp_names w) w) w.
Proof.
  intros Hcalm Hinput Hb Hcodec. unfold codecs_open_r. wp_calm. ends_solve.
Qed.

Lemma open_wb_calm w t x :
  calm w → normal t →
  fs w !! t = Some (File x) →
  wp (open_wb t) (ends t (<[t := File []]> (fs w)) (tmp_names w) w) w.
Proof.
  intros Hcalm Ht Hx. unfold open_wb. wp_calm. ends_solve.
Qed.

Lemma copy_loop_calm path t pending : ∀ w acc,
  calm w →
  fs w !! t = Some (File acc) →
  wp (copy_loop path t pending)
    (ends tt
       (<[t := File (acc ++ concat (sjis_encode_replace <$> pending))]> (fs w))
       (tmp_names w) w) w.
Proof.
  induction pending as [| chunk pending IH]; intros w acc Hcalm Hacc.
  - cbn [copy_loop]. wp_calm. unfold ends. cbn.
    rewrite app_nil_r, insert_id by done. done.
  - cbn [copy_loop]. unfold text_write, file_write. wp_calm.
    eapply wp_mono.
    { apply (IH _ (acc ++ sjis_encode_replace chunk)).
      - intros n s. apply Hcalm.
      - cbn [fs set_fs set_clock]. by rewrite lookup_insert_eq. }
    cbn beta. intros r w'. unfold ends.
    cbn [fs cwd fault tmp_names stdin set_fs set_clock fmap list_fmap concat].
    rewrite insert_insert_eq, <- app_assoc. done.
Qed.

Lemma remove_quietly_calm w k x :
  calm w → normal k →
  fs w !! k = Some (File x) →
  wp (remove_quietly k) (ends tt (delete k (fs w)) (tmp_names w) w) w.
Proof.
  intros Hcalm Hk Hx. unfold remove_quietly, os_remove. wp_calm. ends_solve.
Qed.

(** [shutil.move] of a file to a place that is free, or taken by a file:
    one rename. *)
Lemma shutil_move_file_calm w src dst x :
  calm w → normal src → normal dst →
  fs w !! src = Some (File x) →
  fs w !! dst ≠ Some Dir →
  fs w !! dirname dst = Some Dir →
  wp (shutil_move src dst)
    (ends tt (<[dst := File x]> (delete src (fs w))) (tmp_names w) w) w.
Proof.
  intros Hcalm Hsrc Hdst Hx Hnodir Hparent.
  assert (bool_decide (fs w !! dst = Some Dir) = false) as Hisdir
    by by apply bool_decide_eq_false_2.
  unfold shutil_move, os_rename. wp_calm; try done; ends_solve.
Qed.

Lemma convert_file_stream_run w dir c input encoding b decode name names :
  calm w →
  normal dir → proper c → normal input → has_sep name = false →
  codec_decode (get_read_encoding encoding) = Some decode →
  tmp_names w = name :: names →
  let output := join dir c in
  let backup := output +:+ ".backup" in
  let temp := join dir (temp_name name) in
  fs w !! input = Some (File b) →
  fs w !! dir = Some Dir →
  fs w !! temp = None →
  fs w !! output ≠ Some Dir →
  input ≠ output → temp ≠ output →
  (fs w !! output ≠ None →
   fs w !! backup ≠ Some Dir ∧ input ≠ backup ∧ temp ≠ backup) →
  wp (convert_file_stream input output encoding)
    (ends (true, @None string)
       (<[output := File (converted_bytes (decode b))]>
          (match fs w !! output with
           | Some old => <[backup := old]> (fs w)
           | None => fs w
           end)) names w) w.
Proof.
  intros Hcalm Hdir Hc Hinput Hname Hcodec Hnames output backup temp
    Hb Hd Hfree Hout Hio Hto Hbackup3.
  assert (proper (c +:+ ".backup")) as Hcb by by apply proper_append.
  assert (backup = join dir (c +:+ ".backup")) as Ebackup
    by (by apply join_append).
  destruct (join_normal dir c Hdir Hc) as (Houtput & Hpo & _).
  destruct (join_normal dir _ Hdir Hcb) as (Hbackup & Hpb & _).
  destruct (join_normal dir _ Hdir (temp_name_proper name Hname))
    as (Htemp & Hpt & _).
  rewrite <- Ebackup in Hbackup, Hpb. fold output in Houtput, Hpo.
  fold temp in Htemp, Hpt.
  assert (temp ≠ input) as Hti by (intros E; rewrite E in Hfree; congruence).
  assert (output ≠ backup) as Hob.
  { rewrite Ebackup. unfold output. intros E.
    apply join_inj in E; [| done..].
    apply (f_equal String.length) in E. rewrite length_append in E.
    simpl in E. lia. }
  assert (output ≠ dir ∧ temp ≠ dir) as (Hod & Htd)
    by (repeat split; intros E; rewrite E in *; congruence).
  pose proof (convert_make_temp_calm w dir c name names Hcalm Hdir Hc Hname
                Hnames Hd Hfree) as Hmk.
  fold output temp in Hmk. unfold wp in Hmk.
  destruct (convert_make_temp output w) as [r1 w1] eqn:E1.
  cbn [fst snd] in Hmk.
  assert (calm w1) as Hcalm1 by (eapply calm_ends; [| exact Hmk]; done).
  destruct Hmk as (-> & Hfs1 & Hnames1 & Hcwd1 & Hfault1 & Hstdin1).
  apply wp_run. unfold convert_file_stream. rewrite E1.
  lazymatch goal with |- ?Q (?m ?w).1 (?m ?w).2 => change (wp m Q w) end.
  clear Ebackup E1. clearbody output temp. subst backup.
  set (data := converted_bytes (decode b)).
  unfold convert_with_temp, convert_cleanup, codecs_open_w.
  destruct (fs w !! output) as [[old |] |] eqn:Eo; [| done |].
  2: clear Hbackup3.
  1: destruct (Hbackup3 ltac:(done)) as (Hbak & Hib & Htb); clear Hbackup3.
  1: assert (output +:+ ".backup" ≠ dir) as Hbd
       by (intros E; rewrite E in *; congruence).
  1: destruct (fs w !! (output +:+ ".backup")) as [[old2 |] |] eqn:Eb;
       [| done |].
  all: wp_calm.
  all: wp_then codecs_open_r_calm; wp_calm.
  all: wp_then open_wb_calm; wp_calm.
  all: wp_then copy_loop_calm; wp_calm.
  all: try (wp_then remove_quietly_calm; wp_calm).
  all: repeat (wp_then shutil_move_file_calm; wp_calm).
  all: unfold ends; split; [done |]; split; [| repeat split; congruence].
  all: fs_known; unfold data, converted_bytes, reads; cbn [tf_rest app].
  all: apply map_eq; intros k.
  all: destruct (decide (k = output)) as [-> |]; [by fs_simpl |].
  all: try (destruct (decide (k = output +:+ ".backup")) as [-> |];
            [by fs_simpl; fs_known |]).
  all: destruct (decide (k = temp)) as [-> |]; fs_simpl; fs_known; done.
Qed.

End ConverterRuns.

(** On a run in which no system call fails, [convert_file_stream] converts:
    for an input file of content [b] in a known codec and an output path in
    an existing directory, with the first drawn temporary name free, it
    returns [(True, None)]; the output path then holds the encoding of the
    decoded input, chunk by chunk; a file that was at the output path is kept
    under the name with [.backup] added; the temporary file is gone; the
    input and every other entry are as they were. *)
Theorem convert_file_stream_converts `{Collaborators} (w : World)
    (dir c input encoding : string) (b : bytes) (decode : bytes → list N)
    (name : string) (names : list string) :
  calm w →
  normal dir → proper c → normal input → has_sep name = false →
  codec_decode (get_read_encoding encoding) = Some decode →
  tmp_names w = name :: names →
  let output := join dir c in
  let backup := output +:+ ".backup" in
  let temp := join dir (temp_name name) in
  fs w !! input = Some (File b) →
  fs w !! dir = Some Dir →
  fs w !! temp = None →
  fs w !! output ≠ Some Dir →
  input ≠ output → temp ≠ output →
  (fs w !! output ≠ None →
   fs w !! backup ≠ Some Dir ∧ input ≠ backup ∧ temp ≠ backup) →
  ∃ w',
    convert_file_stream input output encoding w = (Ok (true, None), w')
    ∧ fs w'
      = <[output := File (converted_bytes (decode b))]>
          (match fs w !! output with
           | Some old => <[backup := old]> (fs w)
           | None => fs w
           end)
    ∧ fs w' !! input = Some (File b)
    ∧ fs w' !! temp = None
    ∧ tmp_names w' = names.
Proof.
  intros Hcalm Hdir Hc Hinput Hname Hcodec Hnames output backup temp
    Hb Hd Hfree Hout Hio Hto Hbackup3.
  pose proof (convert_file_stream_run w dir c input encoding b decode name
                names Hcalm Hdir Hc Hinput Hname Hcodec Hnames Hb Hd Hfree
                Hout Hio Hto Hbackup3) as Hrun.
  fold output backup temp in Hrun. unfold wp, ends in Hrun.
  destruct (convert_file_stream input output encoding w) as [r w'].
  cbn [fst snd] in Hrun. destruct Hrun as (-> & Hfs & Hn & _).
  exists w'. split; [done |]. split; [exact Hfs |].
  split; [| split; [| exact Hn]]; rewrite Hfs.
  - rewrite lookup_insert_ne by done.
    destruct (fs w !! output); [| done].
    destruct Hbackup3 as (_ & ? & _); [done |]. by rewrite lookup_insert_ne.
  - rewrite lookup_insert_ne by done.
    destruct (fs w !! output); [| done].
    destruct Hbackup3 as (_ & _ & ?); [done |]. by rewrite lookup_insert_ne.
Qed.

Lemma normal_home_user : normal "/home/user".
Proof.
  exists 1, ["home"; "user"]. split; [by left |]. split; [| reflexivity].
  repeat constructor; done.
Qed.

Lemma convert_file_stream_converts_witness :
  ∃ w',
    @convert_file_stream (Sample.collaborators None)
      "/home/user/hello.txt" "/home/user/hello_sjis.txt" "UTF-8" Sample.world0
    = (Ok (true, None), w')
    ∧ fs w' !! "/home/user/hello_sjis.txt" = Some (File Sample.hello)
    ∧ fs w' !! "/home/user/hello.txt" = Some (File Sample.hello)
    ∧ fs w' !! "/home/user/sjis_conv_k3x9_q2a.tmp" = None.
Proof.
  assert (normal "/home/user/hello.txt") as Hinput.
  { exists 1, ["home"; "user"; "hello.txt"]. split; [by left |].
    split; [| reflexivity]. repeat constructor; done. }
  assert (proper "hello_sjis.txt") as Hc by (repeat split; done).
  destruct (convert_file_stream_converts
              (H := Sample.collaborators None) Sample.world0
              "/home/user" "hello_sjis.txt" "/home/user/hello.txt" "UTF-8"
              Sample.hello Sample.utf8_decode_replace "k3x9_q2a" ["w0rld_7z"])
    as (w' & Hrun & Hfs & Hin & Htmp & _);
    [ by intros n s | exact normal_home_user | exact Hc | exact Hinput
    | reflexivity | reflexivity | reflexivity
    | vm_compute; reflexivity | vm_compute; reflexivity
    | vm_compute; reflexivity | vm_compute; discriminate
    | discriminate | discriminate
    | intros Hex; by vm_compute in Hex | ].
  exists w'. split; [exact Hrun |]. split; [| split; [exact Hin | exact Htmp]].
  rewrite Hfs. apply lookup_insert_eq.
Defined.

(** ** The converter on an input it cannot read *)

Section ConverterFails.
Context `{Collaborators}.

Lemma convert_file_stream_unreadable_run w dir c input encoding name names :
  calm w →
  normal dir → proper c → normal input → has_sep name = false →
  tmp_names w = name :: names →
  let output := join dir c in
  let temp := join dir (temp_name name) in
  fs w !! dir = Some Dir →
  fs w !! temp = None →
  input ≠ temp →
  (∀ b, fs w !! input = Some (File b) →
        codec_decode (get_read_encoding encoding) = None) →
  wp (convert_file_stream input output encoding)
    (ends (false, Some (unreadable_reason (fs w !! input) input encoding))
       (fs w) names w) w.
Proof.
  intros Hcalm Hdir Hc Hinput Hname Hnames output temp Hd Hfree Hit Hread.
  destruct (join_normal dir _ Hdir (temp_name_proper name Hname))
    as (Htemp & Hpt & _).
  fold temp in Htemp, Hpt.
  pose proof (convert_make_temp_calm w dir c name names Hcalm Hdir Hc Hname
                Hnames Hd Hfree) as Hmk.
  fold output temp in Hmk. unfold wp in Hmk.
  destruct (convert_make_temp output w) as [r1 w1] eqn:E1.
  cbn [fst snd] in Hmk.
  assert (calm w1) as Hcalm1 by (eapply calm_ends; [| exact Hmk]; done).
  destruct Hmk as (-> & Hfs1 & Hnames1 & Hcwd1 & Hfault1 & Hstdin1).
  apply wp_run. unfold convert_file_stream. rewrite E1.
  lazymatch goal with |- ?Q (?m ?w).1 (?m ?w).2 => change (wp m Q w) end.
  clear E1. clearbody output temp.
  unfold convert_with_temp, convert_cleanup, codecs_open_r.
  assert (negb (bool_decide (temp = "")) = true) as Hne.
  { apply negb_true_iff, bool_decide_eq_false_2. by apply normal_not_empty. }
  destruct (fs w !! input) as [[b |] |] eqn:Ei;
    [rewrite (Hread b eq_refl) |..]; wp_calm.
  all: lazymatch goal with
       | |- match convert_handlers ?e with _ => _ end =>
           change (convert_handlers e)
             with (Some (ret (false, Some (msg_os_error e))))
           || change (convert_handlers e)
                with (Some (ret (false, Some (msg_unexpected_save e))))
       end.
  all: cbv iota beta; wp_calm.
  all: wp_then remove_quietly_calm; wp_calm.
  all: cbn [fs cwd fault tmp_names stdin set_clock] in *.
  all: unfold ends, unreadable_reason; split; [done |];
    split; [| repeat split; congruence].
  all: fs_known; by apply delete_insert_id.
Qed.

End ConverterFails.

(** On a run in which no system call fails, a conversion whose input
    cannot be opened (the path is missing or a directory, or the codec is
    not known) is reported by [(False, reason)], and it leaves no trace: the
    temporary file it had made is removed, and the files are as they were. *)
Theorem convert_file_stream_unreadable `{Collaborators} (w : World)
    (dir c input encoding name : string) (names : list string) :
  calm w →
  normal dir → proper c → normal input → has_sep name = false →
  tmp_names w = name :: names →
  let output := join dir c in
  let temp := join dir (temp_name name) in
  fs w !! dir = Some Dir →
  fs w !! temp = None →
  input ≠ temp →
  (∀ b, fs w !! input = Some (File b) →
        codec_decode (get_read_encoding encoding) = None) →
  ∃ w',
    convert_file_stream input output encoding w
    = (Ok (false, Some (unreadable_reason (fs w !! input) input encoding)),
       w')
    ∧ fs w' = fs w.
Proof.
  intros Hcalm Hdir Hc Hinput Hname Hnames output temp Hd Hfree Hit Hread.
  pose proof (convert_file_stream_unreadable_run w dir c input encoding name
                names Hcalm Hdir Hc Hinput Hname Hnames Hd Hfree Hit Hread)
    as Hrun.
  fold output in Hrun. unfold wp, ends in Hrun.
  destruct (convert_file_stream input output encoding w) as [r w'].
  cbn [fst snd] in Hrun. destruct Hrun as (-> & Hfs & _).
  by exists w'.
Qed.

Lemma convert_file_stream_unreadable_witness :
  ∃ w',
    @convert_file_stream (Sample.collaborators None)
      "/home/user/hello.txt" "/home/user/hello_sjis.txt" "EUC-JP"
      Sample.world0
    = (Ok (false,
           Some "ファイルの保存中に予期せぬエラー: unknown encoding: euc-jp"),
       w')
    ∧ fs w' = Sample.files.
Proof.
  assert (normal "/home/user/hello.txt") as Hinput.
  { exists 1, ["home"; "user"; "hello.txt"]. split; [by left |].
    split; [| reflexivity]. repeat constructor; done. }
  assert (proper "hello_sjis.txt") as Hc by (repeat split; done).
  apply (convert_file_stream_unreadable
           (H := Sample.collaborators None) Sample.world0
           "/home/user" "hello_sjis.txt" "/home/user/hello.txt" "EUC-JP"
           "k3x9_q2a" ["w0rld_7z"]);
    [ by intros n s | exact normal_home_user | exact Hc | exact Hinput
    | reflexivity | reflexivity | vm_compute; reflexivity
    | vm_compute; reflexivity | discriminate | reflexivity ].
Defined.

(** ** What the converter answers, whatever fails *)

Lemma append_not_empty a b : a ≠ "" → a +:+ b ≠ "".
Proof. destruct a; [done |]. sapp. discriminate. Qed.

Lemma try_finally_post {A} (m : M A) (f : M unit) (P : res A → Prop) w :
  wp m (λ r _, P r) w →
  (∀ w1, wp f (λ r' _, ∀ e, r' = Raise e → P (Raise e)) w1) →
  wp (try_finally m f) (λ r _, P r) w.
Proof.
  intros Hm Hf. apply wp_try_finally. eapply wp_mono; [exact Hm |].
  cbn beta. intros r w1 Hr. unfold finallyQ.
  eapply wp_mono; [apply Hf |]. cbn beta. intros [[] | e] w2 He; [done |].
  by apply He.
Qed.

Lemma remove_quietly_raises p w :
  wp (remove_quietly p) (λ r _, ∀ e, r = Raise e → is_OSError e = false) w.
Proof.
  unfold remove_quietly. wp_steps. wp_any; [done |].
  destruct (is_OSError r) eqn:E; wp_steps; [done |]. by intros e [= <-].
Qed.

Section ConverterAnswers.
Context `{Collaborators}.

Lemma convert_cleanup_raises t w :
  wp (convert_cleanup t) (λ r _, ∀ e, r = Raise e → is_OSError e = false) w.
Proof.
  unfold convert_cleanup. destruct t as [t |]; wp_steps; try done.
  apply remove_quietly_raises.
Qed.

Lemma convert_handlers_answer e :
  match convert_handlers e with
  | Some k => ∀ w, ∃ reason, (k w).1 = Ok (false, Some reason) ∧ reason ≠ ""
  | None => is_OSError e = false
  end.
Proof.
  unfold convert_handlers, except_Exception.
  assert (∀ e', msg_os_error e' ≠ "") as H1
    by (intros; by apply append_not_empty).
  assert (∀ e', msg_unexpected_save e' ≠ "") as H2
    by (intros; by apply append_not_empty).
  destruct (is_PermissionError e); [by eexists |].
  destruct (is_OSError e) eqn:Eos.
  - destruct (bool_decide _); [by eexists |].
    destruct (has_errno ENOSPC e); intros w; by eexists.
  - destruct (is_Exception e); [| done]. intros w. by eexists.
Qed.

Lemma convert_with_temp_answer input output read_encoding temp w :
  wp (convert_with_temp input output read_encoding temp)
    (λ r _, ∀ x, r = Ok x → x = (true, None)) w.
Proof.
  unfold convert_with_temp. wp_blind.
  all: try done. all: by intros x [= <-].
Qed.

Lemma convert_attempt_answer (body : M (bool * option string)) w :
  wp body (λ r _, ∀ x, r = Ok x → x = (true, None)) w →
  wp (try_except body convert_handlers)
    (λ r _, match r with
            | Ok x => is_report x
            | Raise e => is_OSError e = false
            end) w.
Proof.
  intros Hbody. apply wp_try_except. eapply wp_mono; [exact Hbody |].
  cbn beta. intros [x | e] w1 Hx; cbn [exceptQ].
  - left. by apply Hx.
  - pose proof (convert_handlers_answer e) as Hh.
    destruct (convert_handlers e) as [k |]; [| exact Hh].
    destruct (Hh w1) as (reason & E & Hne). unfold wp. rewrite E.
    right. by exists reason.
Qed.

End ConverterAnswers.

(** [convert_file_stream] answers [(True, None)] or [(False, reason)] with
    a reason that is not empty, whatever fails; no [OSError] gets out of
    it. *)
Theorem convert_file_stream_answers `{Collaborators} (w : World)
    (input output encoding : string) :
  match (convert_file_stream input output encoding w).1 with
  | Ok x => is_report x
  | Raise e => is_OSError e = false
  end.
Proof.
  unfold convert_file_stream.
  destruct (convert_make_temp output w) as [[temp | e] w1].
  - lazymatch goal with
    | |- match (?m ?w).1 with _ => _ end =>
        change (wp m (λ r _, match r with
                             | Ok x => is_report x
                             | Raise e => is_OSError e = false
                             end) w)
    end.
    apply (try_finally_post _ _
             (λ r, match r with
                   | Ok x => is_report x
                   | Raise e => is_OSError e = false
                   end)).
    + apply convert_attempt_answer, convert_with_temp_answer.
    + intros w2. apply convert_cleanup_raises.
  - lazymatch goal with
    | |- match (?m ?w).1 with _ => _ end =>
        change (wp m (λ r _, match r with
                             | Ok x => is_report x
                             | Raise e => is_OSError e = false
                             end) w)
    end.
    apply (try_finally_post _ _
             (λ r, match r with
                   | Ok x => is_report x
                   | Raise e => is_OSError e = false
                   end)).
    + apply convert_attempt_answer. by wp_steps.
    + intros w2. apply convert_cleanup_raises.
Qed.

(** ** Results that are flagged skipped *)

Section Skips.
Context `{Collaborators}.

Lemma scan_loop_only_clock path pending : ∀ w,
  wp (scan_loop path pending) (λ _ w', only_clock w w') w.
Proof.
  induction pending as [| chunk pending IH]; intros w; cbn [scan_loop].
  - wp_steps; only_clock_solve.
  - wp_steps; try only_clock_solve.
    eapply wp_mono; [apply IH |]. cbn beta. intros r w' Hw'.
    only_clock_solve.
Qed.

Lemma check_sjis_compatibility_stream_only_clock w p encoding :
  wp (check_sjis_compatibility_stream p encoding)
    (λ _ w', only_clock w w') w.
Proof.
  unfold check_sjis_compatibility_stream, codecs_open_r. wp_steps.
  all: try only_clock_solve.
  wp_call scan_loop_only_clock; wp_steps; only_clock_solve.
Qed.

Lemma convert_to_sjis_skips w p :
  wp (convert_to_sjis p)
    (λ r w', ∀ x, r = Ok x → skipped x = true →
       fs w' = fs w ∧ hist w' = hist w) w.
Proof.
  unfold convert_to_sjis, convert_detected, orchestrator_handlers.
  wp_steps; try (by intros x [= <-]).
  apply wp_abspath_any; intros; wp_simpl; wp_steps;
    try (by intros x [= <-]).
  wp_call detect_encoding_only_clock; wp_steps.
  all: try (intros x [= <-] Hs; cbn in Hs; first [discriminate | only_clock_solve]).
  wp_call check_sjis_compatibility_stream_only_clock; wp_steps.
  all: try (intros x [= <-] Hs; cbn in Hs; first [discriminate | only_clock_solve]).
  eapply wp_mono; [apply generate_output_filename_run |]. cbn beta.
  intros r w3 [Hw3 _]. destruct r as [[new_filepath new_filename] | e];
    wp_simpl; wp_steps.
  all: try (intros x [= <-] Hs; cbn in Hs; first [discriminate | only_clock_solve]).
  - apply wp_run. unfold confirm_overwrite.
    destruct (confirm_loop (stdin w3)) as [answer rest]. cbn [fst snd].
    wp_simpl. wp_blind.
    all: intros x [= <-] Hs; cbn in Hs;
      first [discriminate | only_clock_solve].
  - wp_blind.
    all: intros x [= <-] Hs; cbn in Hs; discriminate.
Qed.

End Skips.

(** A result that is flagged skipped (an empty file, a file already in
    Shift_JIS, a declined overwrite) comes with no change to the files: the
    file system is as it was, and nothing was written on the way. *)
Theorem skipped_leaves_files `{Collaborators} (w : World) (p : string)
    (r : ConversionResult) (w' : World) :
  convert_to_sjis p w = (Ok r, w') →
  skipped r = true →
  fs w' = fs w ∧ hist w' = hist w.
Proof.
  intros Hrun Hs. pose proof (convert_to_sjis_skips w p) as Hwp.
  unfold wp in Hwp. rewrite Hrun in Hwp. by apply (Hwp r).
Qed.

Lemma skipped_leaves_files_witness :
  fs (@convert_to_sjis (Sample.collaborators (Sample.says "ascii" 1))
        "hello.txt" Sample.world_declined).2
  = fs Sample.world_declined.
Proof.
  assert (∃ r, (@convert_to_sjis (Sample.collaborators
                                    (Sample.says "ascii" 1))
                  "hello.txt" Sample.world_declined).1 = Ok r
               ∧ skipped r = true) as (r & Hr & Hs)
    by (eexists; vm_compute; split; reflexivity).
  destruct (@convert_to_sjis (Sample.collaborators (Sample.says "ascii" 1))
              "hello.txt" Sample.world_declined) as [r0 w'] eqn:Hrun.
  cbn [fst snd] in *. subst r0.
  exact (proj1 (skipped_leaves_files (H := Sample.collaborators _)
                  Sample.world_declined "hello.txt" r w' Hrun Hs)).
Defined.

(** ** The orchestrator on a file it converts *)

Lemma normal_split p :
  normal p → dirname p ≠ p →
  normal (dirname p) ∧ proper (basename p)
  ∧ p = join (dirname p) (basename p).
Proof.
  intros (n & comps & Hn & Hall & ->) Hne.
  destruct (decide (comps = [])) as [-> | Hc].
  - destruct Hne. by apply dirname_nf_nil.
  - destruct (exists_last Hc) as (l & f & ->).
    rewrite dirname_nf_snoc, basename_nf_snoc by done.
    apply Forall_app in Hall as [Hl Hf]. rewrite Forall_singleton in Hf.
    split; [by exists n, l |]. split; [done |]. by rewrite join_nf.
Qed.

Lemma calm_quiet w n : calm w → quiet w n.
Proof. intros Hc i s _. apply Hc. Qed.

Lemma new_name_proper p flag :
  proper (new_name p flag) ∧ new_name p flag ≠ basename p.
Proof.
  unfold new_name. destruct (splitext (basename p)) as [name ext] eqn:E.
  apply (new_filename_proper (basename p) name ext flag);
    [apply has_sep_basename | exact E].
Qed.

Lemma generate_output_filename_calm w p flag :
  calm w → normal p →
  fs w !! dirname p ≠ None →
  wp (generate_output_filename p flag)
    (ends (join (dirname p) (new_name p flag), new_name p flag)
       (fs w) (tmp_names w) w) w.
Proof.
  intros Hcalm Hp Hd.
  pose proof (dirname_normal p Hp) as Hdir.
  assert (bool_decide (is_Some (fs w !! dirname p)) = true) as Hex
    by (apply bool_decide_eq_true_2; by apply not_eq_None_Some).
  unfold generate_output_filename, os_path_abspath, new_name.
  rewrite (normal_isabs p Hp), (normpath_normal p Hp).
  wp_calm. ends_solve.
Qed.

Section OrchestratorConverts.
Context `{Collaborators}.

Lemma convert_to_sjis_converts_run w p b encoding decode name names :
  calm w → normal p → has_sep name = false →
  fs w !! p = Some (File b) →
  fs w !! dirname p = Some Dir →
  (detect_encoding p w).1 = Ok (Some encoding, None) →
  encoding ≠ Config.ENCODING_SHIFT_JIS →
  codec_decode (get_read_encoding encoding) = Some decode →
  tmp_names w = name :: names →
  let incompatible := has_incompatible (decode b) in
  let new_filename := new_name p incompatible in
  let output := join (dirname p) new_filename in
  let temp := join (dirname p) (temp_name name) in
  fs w !! output = None →
  fs w !! temp = None →
  temp ≠ output →
  wp (convert_to_sjis p)
    (ends (mk_result true new_filename encoding incompatible true false)
       (<[output := File (converted_bytes (decode b))]> (fs w)) names w) w.
Proof.
  intros Hcalm Hp Hname Hb Hd Hdetect Hns Hcodec Hnames incompatible
    new_filename output temp Hfree Htfree Hto.
  assert (dirname p ≠ p) as Hroot by (intros E; rewrite E in Hd; congruence).
  destruct (normal_split p Hp Hroot) as (Hdir & Hf & Ep).
  destruct (new_name_proper p incompatible) as [Hnew Hnewf].
  fold new_filename in Hnew, Hnewf.
  destruct (join_normal _ _ Hdir Hnew) as (Houtput & _ & _).
  fold output in Houtput.
  assert (p ≠ output) as Hpo by (intros E; rewrite E in Hb; congruence).
  assert (bool_decide (encoding = Config.ENCODING_SHIFT_JIS) = false) as Hns'
    by by apply bool_decide_eq_false_2.
  subst temp output new_filename.
  unfold convert_to_sjis, os_path_abspath.
  rewrite (normal_isabs p Hp), (normpath_normal p Hp).
  wp_calm.
  eapply (wp_result _ (λ _ w', only_clock w w') _ _ _ Hdetect);
    [apply detect_encoding_only_clock |].
  intros w1 (Hfs1 & Hcwd1 & Hfault1 & Htmp1 & Hstdin1 & Hhist1 & _).
  assert (calm w1) as Hcalm1 by (intros n s; rewrite Hfault1; apply Hcalm).
  wp_simpl. cbn [truthy]. wp_calm.
  pose proof (check_sjis_compatibility_stream_quiet w1 p encoding b decode)
    as Hscan.
  rewrite (resolve_id w1 p Hp), Hfs1 in Hscan.
  specialize (Hscan Hb Hcodec (calm_quiet _ _ Hcalm1)).
  unfold later in Hscan. fold (has_incompatible (decode b)) in Hscan.
  fold incompatible in Hscan.
  unfold convert_detected. wp_calm.
  cbn [has_incompatible_chars set_has_incompatible_chars
       set_original_encoding].
  wp_then generate_output_filename_calm. wp_calm.
  wp_then convert_file_stream_run. wp_calm.
  unfold ends. split; [reflexivity |].
  split; [| repeat split; congruence]. fs_known. reflexivity.
Qed.

End OrchestratorConverts.

(** On a run in which no system call fails, the orchestrator converts a
    file that the detector gives an encoding other than Shift_JIS, when the
    codec is known, no file is at the output path and the first drawn
    temporary name is free: the result is a success flagged converted, with
    the detected encoding, the flag of the scan and the new name as message;
    the new file is in the directory of the input, under the input's name
    with [_sjis] or [_sjisx] before the extension, and holds the encoding of
    the decoded input; every other entry, the input among them, is as it
    was. *)
Theorem convert_to_sjis_converts `{Collaborators} (w : World) (p : string)
    (b : bytes) (encoding : string) (decode : bytes → list N)
    (name : string) (names : list string) :
  calm w → normal p → has_sep name = false →
  fs w !! p = Some (File b) →
  fs w !! dirname p = Some Dir →
  (detect_encoding p w).1 = Ok (Some encoding, None) →
  encoding ≠ Config.ENCODING_SHIFT_JIS →
  codec_decode (get_read_encoding encoding) = Some decode →
  tmp_names w = name :: names →
  let incompatible := has_incompatible (decode b) in
  let new_filename := new_name p incompatible in
  let output := join (dirname p) new_filename in
  let temp := join (dirname p) (temp_name name) in
  fs w !! output = None →
  fs w !! temp = None →
  temp ≠ output →
  ∃ w',
    convert_to_sjis p w
    = (Ok (mk_result true new_filename encoding incompatible true false), w')
    ∧ fs w' = <[output := File (converted_bytes (decode b))]> (fs w)
    ∧ fs w' !! p = Some (File b).
Proof.
  intros Hcalm Hp Hname Hb Hd Hdetect Hns Hcodec Hnames incompatible
    new_filename output temp Hfree Htfree Hto.
  pose proof (convert_to_sjis_converts_run w p b encoding decode name names
                Hcalm Hp Hname Hb Hd Hdetect Hns Hcodec Hnames Hfree Htfree
                Hto) as Hrun.
  fold incompatible new_filename output in Hrun. unfold wp, ends in Hrun.
  destruct (convert_to_sjis p w) as [r w']. cbn [fst snd] in Hrun.
  destruct Hrun as (-> & Hfs & _). exists w'. split; [done |].
  split; [exact Hfs |]. rewrite Hfs, lookup_insert_ne; [done |].
  intros E. rewrite E in Hfree. congruence.
Qed.

Lemma convert_to_sjis_converts_witness :
  ∃ w',
    @convert_to_sjis (Sample.collaborators (Sample.says "ascii" 1))
      "/home/user/hello.txt" Sample.world0
    = (Ok (mk_result true "hello_sjis.txt" "UTF-8" false true false), w')
    ∧ fs w' !! "/home/user/hello_sjis.txt" = Some (File Sample.hello)
    ∧ fs w' !! "/home/user/hello.txt" = Some (File Sample.hello).
Proof.
  assert (normal "/home/user/hello.txt") as Hinput.
  { exists 1, ["home"; "user"; "hello.txt"]. split; [by left |].
    split; [| reflexivity]. repeat constructor; done. }
  destruct (convert_to_sjis_converts
              (H := Sample.collaborators (Sample.says "ascii" 1))
              Sample.world0 "/home/user/hello.txt" Sample.hello "UTF-8"
              Sample.utf8_decode_replace "k3x9_q2a" ["w0rld_7z"])
    as (w' & Hrun & Hfs & Hin);
    [ by intros n s | exact Hinput | reflexivity
    | vm_compute; reflexivity | vm_compute; reflexivity
    | vm_compute; reflexivity | discriminate | reflexivity | reflexivity
    | vm_compute; reflexivity | vm_compute; reflexivity | discriminate | ].
  exists w'. split; [exact Hrun |]. split; [| exact Hin].
  rewrite Hfs. apply lookup_insert_eq.
Defined.

(** ** The orchestrator on a path that is no file *)



(** ** The detector on byte-order marks and on failures *)


Section DetectorMarks.
Context `{Collaborators}.



End DetectorMarks.



(** ** The calls that only read *)


(** ** Encoding names *)











(** ** The output names of different files *)




Lemma has_dot_append a b : has_dot (a +:+ b) = has_dot a || has_dot b.
Proof.
  induction a as [| c a IH]; [done |]. sapp. simpl. rewrite IH.
  by rewrite orb_assoc.
Qed.















(** ** A conversion that fails while it reads or writes *)

(** The run returns or raises [r], [n] system calls later, and leaves the
    files [m]. *)
Definition ends_at {A} (r : res A) (m : gmap string node)
    (names : list string) (n : nat) (w : World) : res A → World → Prop :=
  λ r' w', r' = r ∧ fs w' = m ∧ tmp_names w' = names
           ∧ cwd w' = cwd w ∧ fault w' = fault w ∧ stdin w' = stdin w
           ∧ clock w' = n + clock w.


Lemma quiet_ends_at {A} (r : res A) m names n k w r' w' :
  quiet w (n + k) → ends_at r m names n w r' w' → quiet w' k.
Proof.
  intros Hq (_ & _ & _ & _ & Hf & _ & Hc) i s Hi. rewrite Hf, Hc.
  replace (i + (n + clock w)) with ((n + i) + clock w) by lia.
  apply Hq. lia.
Qed.

Section ConverterFaults.
Context `{Collaborators}.









End ConverterFaults.







(** ** What the compatibility scan answers *)





(** ** The temporary file, whatever fails *)













